(** * PgProbe: query safety, plan analysis and connection management

    A shallow embedding of the TypeScript sources
    [src/tools/query.ts], [src/tools/optimization.ts] and [src/database.ts].

    JavaScript strings are sequences of UTF-16 code units, so a string is a
    [list N]; regular expressions are embedded as the matching functions they
    denote (anchored matcher plus the engine's scanning loop); [throw] is an
    explicit completion value; the mutable accumulator arrays of the plan
    walkers are threaded as explicit state. *)

From Stdlib Require Import List NArith ZArith QArith Bool Ascii String Lia.
From Stdlib Require Import DecimalString.
From Stdlib Require Import Qround.
Import ListNotations.

Set Implicit Arguments.

(** ** JavaScript strings *)

Module JS.

Definition jsstring := list N.

(** An ASCII literal of the source as a sequence of code units. *)
Definition lit (s : string) : jsstring := map N_of_ascii (list_ascii_of_string s).

Definition inRange (lo hi c : N) : bool := ((lo <=? c) && (c <=? hi))%N.

(** ECMAScript LineTerminator: LF, CR, LS, PS. *)
Definition isLineTerminator (c : N) : bool :=
  ((c =? 10) || (c =? 13) || (c =? 8232) || (c =? 8233))%N.

(** ECMAScript WhiteSpace together with LineTerminator: the class [\s] of
    regular expressions and the characters removed by [String.prototype.trim]. *)
Definition isWhiteSpace (c : N) : bool :=
  ((c =? 9) || (c =? 11) || (c =? 12) || (c =? 32) || (c =? 160)
   || (c =? 5760) || inRange 8192 8202 c || (c =? 8239) || (c =? 8287)
   || (c =? 12288) || (c =? 65279))%N
  || isLineTerminator c.

(** The class [\w] (no unicode flag): ASCII letters, digits and underscore. *)
Definition isWordChar (c : N) : bool :=
  inRange 48 57 c || inRange 65 90 c || (c =? 95)%N || inRange 97 122 c.

(** Canonicalize of a case-insensitive pattern without the unicode flag.  The
    patterns of this program only contain ASCII letters; a code unit of 128 or
    more never canonicalizes to an ASCII one, so it is left as it is. *)
Definition canonicalize (c : N) : N :=
  if inRange 97 122 c then (c - 32)%N else c.

Definition eqCI (p c : N) : bool := (canonicalize p =? canonicalize c)%N.

Fixpoint dropWhile (f : N -> bool) (s : jsstring) : jsstring :=
  match s with
  | [] => []
  | c :: r => if f c then dropWhile f r else s
  end.

Fixpoint takeWhile (f : N -> bool) (s : jsstring) : jsstring :=
  match s with
  | [] => []
  | c :: r => if f c then c :: takeWhile f r else []
  end.

Definition trimStart (s : jsstring) : jsstring := dropWhile isWhiteSpace s.
Definition trimEnd (s : jsstring) : jsstring := rev (dropWhile isWhiteSpace (rev s)).

(** [String.prototype.trim] *)
Definition trim (s : jsstring) : jsstring := trimEnd (trimStart s).

(** [Array.prototype.join] on an array of strings. *)
Fixpoint join (sep : jsstring) (l : list jsstring) : jsstring :=
  match l with
  | [] => []
  | [x] => x
  | x :: r => x ++ sep ++ join sep r
  end.

(** [Array.prototype.includes] on an array of strings. *)
Definition includes (l : list jsstring) (x : jsstring) : bool :=
  existsb (fun y => if list_eq_dec N.eq_dec y x then true else false) l.

Definition eqString (a b : jsstring) : bool :=
  if list_eq_dec N.eq_dec a b then true else false.

(** *** The regular-expression engine's loops

    An anchored matcher tells, for the text that starts at the current
    position, whether the pattern matches there and how many code units the
    match spans.  None of the patterns of this program matches the empty
    string, so a match always advances [lastIndex]. *)

Section Loops.
Variable A : Type.
Variable matchHere : jsstring -> option (A * nat).

(** The scan of a global ([g]) pattern: every code unit outside a match is
    kept ([inl]), every match is reported with its capture ([inr]) and the
    scan resumes after it ([skip] counts the code units of the current match
    still to be passed over). *)
Fixpoint scanGlobal (skip : nat) (s : jsstring) : list (N + A) :=
  match s with
  | [] => []
  | c :: r =>
      match skip with
      | S k => scanGlobal k r
      | O =>
          match matchHere s with
          | Some (a, len) => inr a :: scanGlobal (pred len) r
          | None => inl c :: scanGlobal 0 r
          end
      end
  end.

Fixpoint unmatched (l : list (N + A)) : jsstring :=
  match l with
  | [] => []
  | inl c :: r => c :: unmatched r
  | inr _ :: r => unmatched r
  end.

Fixpoint captures (l : list (N + A)) : list A :=
  match l with
  | [] => []
  | inl _ :: r => captures r
  | inr a :: r => a :: captures r
  end.

(** [s.replace(/pattern/g, empty)]: every match is replaced by the empty
    string. *)
Definition removeAll (s : jsstring) : jsstring := unmatched (scanGlobal 0 s).

(** the captures of the successive [regex.exec(s)] calls of a global pattern *)
Definition execAll (s : jsstring) : list A := captures (scanGlobal 0 s).
End Loops.

Section First.
Variable matchLen : jsstring -> option nat.

(** [s.replace(/pattern/, empty)]: only the leftmost match is removed. *)
Fixpoint removeFirst (s : jsstring) : jsstring :=
  match matchLen s with
  | Some len => skipn len s
  | None =>
      match s with
      | [] => []
      | c :: r => c :: removeFirst r
      end
  end.
End First.

(** [regex.test(s)] of a pattern without the global flag: a match at some
    position; the matcher sees the code unit before the position, for [\b]. *)
Fixpoint testFrom (matchAt : option N -> jsstring -> bool)
         (prev : option N) (s : jsstring) : bool :=
  matchAt prev s ||
  match s with
  | [] => false
  | c :: r => testFrom matchAt (Some c) r
  end.

Definition test (matchAt : option N -> jsstring -> bool) (s : jsstring) : bool :=
  testFrom matchAt None s.

(** The last code unit of [s], or [prev] when [s] is empty: what stands
    before the position that follows [s]. *)
Fixpoint lastOr (prev : option N) (s : jsstring) : option N :=
  match s with
  | [] => prev
  | c :: r => lastOr (Some c) r
  end.

(** A literal matched without regard to case: the matched text and the rest. *)
Fixpoint matchLiteralCI (pat s : jsstring) : option (jsstring * jsstring) :=
  match pat with
  | [] => Some ([], s)
  | p :: pat' =>
      match s with
      | [] => None
      | c :: r =>
          if eqCI p c then
            match matchLiteralCI pat' r with
            | Some (m, rest) => Some (c :: m, rest)
            | None => None
            end
          else None
      end
  end.

Definition isWordOpt (c : option N) : bool :=
  match c with Some c => isWordChar c | None => false end.

(** The assertion [\b] between two neighbouring code units ([None] at either
    end of the input). *)
Definition wordBoundary (before after : option N) : bool :=
  xorb (isWordOpt before) (isWordOpt after).

(** [\b(K1|K2|...)\b] with the [i] flag, anchored. *)
Definition matchWordAt (alts : list jsstring) (prev : option N) (s : jsstring) : bool :=
  wordBoundary prev (hd_error s) &&
  existsb (fun kw =>
             match matchLiteralCI kw s with
             | Some (m, rest) => wordBoundary (hd_error (rev m) ) (hd_error rest)
             | None => false
             end) alts.

Definition testWord (alts : list jsstring) (s : jsstring) : bool :=
  test (matchWordAt alts) s.

(** *** Numbers

    A JavaScript number that comes out of [JSON.parse] (or out of the tool's
    argument validation) is a finite double; [Q] holds its exact value.
    Comparison of finite doubles is comparison of their values. *)
Definition number := Q.

Definition gt (a b : number) : bool := negb (Qle_bool a b).

Definition isInteger (x : number) : bool :=
  (Qnum x mod Zpos (Qden x) =? 0)%Z.

Definition integerPart (x : number) : Z := (Qnum x / Zpos (Qden x))%Z.

(** Number::toString, as used by template literals: the shortest digits that
    read back as the same double.  Every integer of at most 2^53 in absolute
    value is a double, and no shorter digits read back as it, so it is printed
    in decimal in full, with a minus sign when negative.  The printing of the
    other numbers (larger integers, whose last digits are replaced by zeros,
    fractions, exponent notation) is left to [other]. *)
Definition numberToString (other : number -> jsstring) (x : number) : jsstring :=
  if isInteger x && (Z.abs (integerPart x) <=? 2 ^ 53)%Z
  then lit (NilEmpty.string_of_int (Z.to_int (integerPart x)))
  else other x.

(** Completion of a call that may throw [new Error(message)]. *)
Inductive completion (A : Type) : Type :=
| Return (a : A)
| Throw (message : jsstring).
Arguments Return {A} a.
Arguments Throw {A} message.

End JS.
Import JS.

(** ** [src/tools/query.ts]: the SQL safety validator *)

Module Query.

Record pattern := { alternatives : list jsstring }.

(** [pattern.source] *)
Definition source (p : pattern) : jsstring :=
  lit "\b(" ++ join (lit "|") (alternatives p) ++ lit ")\b".

Definition forbidden : list pattern :=
  [ {| alternatives := map lit ["INSERT"; "UPDATE"; "DELETE"; "DROP"; "ALTER";
                                "CREATE"; "TRUNCATE"; "GRANT"; "REVOKE"]%string |};
    {| alternatives := map lit ["COPY"]%string |};
    {| alternatives := map lit ["VACUUM"; "REINDEX"; "CLUSTER"]%string |} ].

(** [/--.*$/gm], anchored: two dashes, then the rest of the line ([.] matches
    no line terminator and, with [m], [$] holds before one). *)
Definition matchLineComment (s : jsstring) : option (unit * nat) :=
  match s with
  | c :: d :: r =>
      if ((c =? 45) && (d =? 45))%N
      then Some (tt, 2 + List.length (takeWhile (fun c => negb (isLineTerminator c)) r))%nat
      else None
  | _ => None
  end.

(** The index of the first [*/] in [s]. *)
Fixpoint closeIndex (s : jsstring) : option nat :=
  match s with
  | [] => None
  | c :: r =>
      match r with
      | d :: _ =>
          if ((c =? 42) && (d =? 47))%N then Some 0%nat
          else option_map S (closeIndex r)
      | [] => None
      end
  end.

(** [/\/\*[\s\S]*?\*\//g], anchored: the opening, lazily anything, the first
    closing after it. *)
Definition matchBlockComment (s : jsstring) : option (unit * nat) :=
  match s with
  | c :: d :: r =>
      if ((c =? 47) && (d =? 42))%N then
        match closeIndex r with
        | Some n => Some (tt, 2 + n + 2)%nat
        | None => None
        end
      else None
  | _ => None
  end.

Definition cleaned (sql : jsstring) : jsstring :=
  removeAll matchBlockComment (removeAll matchLineComment sql).

Definition forbiddenMessage (p : pattern) : jsstring :=
  lit "Query contains forbidden operation. Only SELECT and read-only queries are allowed. "
  ++ lit "Detected pattern: " ++ source p.

Fixpoint checkPatterns (ps : list pattern) (text : jsstring) : completion unit :=
  match ps with
  | [] => Return tt
  | p :: ps' =>
      if testWord (alternatives p) text then Throw (forbiddenMessage p)
      else checkPatterns ps' text
  end.

Definition validateReadOnly (sql : jsstring) : completion unit :=
  checkPatterns forbidden (cleaned sql).

(** [/;$/], anchored: a semicolon that is the last code unit. *)
Definition matchFinalSemicolon (s : jsstring) : option nat :=
  match s with
  | [c] => if (c =? 59)%N then Some 1%nat else None
  | _ => None
  end.

(** [sql.trim().replace(/;$/, empty)] *)
Definition trimmedOf (sql : jsstring) : jsstring :=
  removeFirst matchFinalSemicolon (trim sql).

(** [/^\s*SELECT/i.test(trimmed)] *)
Definition isSelect (trimmed : jsstring) : bool :=
  match matchLiteralCI (lit "SELECT") (dropWhile isWhiteSpace trimmed) with
  | Some _ => true
  | None => false
  end.

(** [/\bLIMIT\b/i.test(trimmed)] *)
Definition hasLimit (trimmed : jsstring) : bool := testWord [lit "LIMIT"] trimmed.

Section EnsureLimit.
Variable other : number -> jsstring.

Definition ensureLimit (sql : jsstring) (limit : number) : jsstring :=
  let trimmed := trimmedOf sql in
  if isSelect trimmed && negb (hasLimit trimmed)
  then trimmed ++ lit " LIMIT " ++ numberToString other limit
  else trimmed.
End EnsureLimit.

(** *** The statements of the specification, in its words *)

(** "trims trailing whitespace and a trailing semicolon" *)
Definition trimmedOf_spec (sql : jsstring) : jsstring :=
  removeFirst matchFinalSemicolon (trimEnd sql).

Definition ensureLimit_spec (other : number -> jsstring)
           (sql : jsstring) (limit : number) : jsstring :=
  let trimmed := trimmedOf_spec sql in
  if isSelect trimmed && negb (hasLimit trimmed)
  then trimmed ++ lit " LIMIT " ++ numberToString other limit
  else trimmed.

(** A keyword of the list occurs in the text as a whole word, in any case:
    the text splits around an occurrence that equals the keyword up to case,
    with a word boundary on either side. *)
Definition occursAsWord (alts : list jsstring) (text : jsstring) : Prop :=
  exists pre m post kw,
    text = pre ++ m ++ post
    /\ In kw alts
    /\ Forall2 (fun p c => eqCI p c = true) kw m
    /\ wordBoundary (lastOr None pre) (hd_error (m ++ post)) = true
    /\ wordBoundary (hd_error (rev m)) (hd_error post) = true.

(** The text does not start with white space. *)
Definition startsClean (s : jsstring) : bool :=
  match s with
  | [] => true
  | c :: _ => negb (isWhiteSpace c)
  end.

(** The text ends neither with white space nor with a semicolon. *)
Definition endsClean (s : jsstring) : bool :=
  match rev s with
  | [] => true
  | c :: _ => negb (isWhiteSpace c) && negb (c =? 59)%N
  end.

End Query.

(** ** The plan tree

    The plan is the parsed JSON of [EXPLAIN (FORMAT JSON)].  The walkers read
    its properties at the types the source casts them to; a property that is
    absent reads as [undefined], here [None] (EXPLAIN emits no [null] for
    these properties, and none is modelled).  The property [Plan] is the
    envelope [{Plan: <node>}] of the top-level EXPLAIN object. *)

Module PlanTree.

#[warnings="-register-all"]
Inductive node : Type :=
  Node {
      NodeType : option jsstring;          (* "Node Type" *)
      RelationName : option jsstring;      (* "Relation Name" *)
      Filter : option jsstring;            (* "Filter" *)
      PlanRows : option number;            (* "Plan Rows" *)
      TotalCost : option number;           (* "Total Cost" *)
      SortKey : option (list jsstring);    (* "Sort Key" *)
      Plans : option (list node);          (* "Plans" *)
      Plan : option node                   (* "Plan" *)
    }.

(** [x ?? d] *)
Definition orElse {A : Type} (x : option A) (d : A) : A :=
  match x with Some a => a | None => d end.

(** [x === "literal"] for a property read as a string *)
Definition isString (x : option jsstring) (s : jsstring) : bool :=
  match x with Some t => eqString t s | None => false end.

(** a string property inside a template literal *)
Definition template (x : option jsstring) : jsstring :=
  orElse x (lit "undefined").

Definition quote : jsstring := [34%N].

(** [plan["Plan"] ?? plan]: the content of a [{Plan: <node>}] envelope, or
    the node itself. *)
Definition unwrap (plan : node) : node := orElse (Plan plan) plan.

(** The children of a node: [Array.isArray(plans)] and the array. *)
Definition children (n : node) : list node := orElse (Plans n) [].

(** A leaf of the plan with nothing but a type, a relation, a row estimate
    and a cost. *)
Definition leaf (type rel : jsstring) (rows cost : number) : node :=
  Node (Some type) (Some rel) None (Some rows) (Some cost) None None None.

End PlanTree.
Import PlanTree.

(** ** [src/tools/query.ts]: the plan warning analyzer *)

Module Warnings.
Section WithNumbers.
Variable other : number -> jsstring.
Let show := numberToString other.

Definition seqScanWarning (innerPlan : node) (rows : number) : jsstring :=
  lit "Sequential scan on " ++ quote ++ template (RelationName innerPlan) ++ quote
  ++ lit " with ~" ++ show rows ++ lit " estimated rows. Consider adding an index.".

Definition nestedLoopWarning (rows : number) : jsstring :=
  lit "Nested Loop join producing ~" ++ show rows
  ++ lit " rows. This may be slow " ++ [8211%N]
  ++ lit " consider restructuring the query or adding indexes.".

Definition highCostWarning (nodeType : option jsstring) (cost : number) : jsstring :=
  lit "High-cost " ++ template nodeType ++ lit " operation (cost: " ++ show cost
  ++ lit "). May benefit from more work_mem or query restructuring.".

(** The three rules of [extractWarnings] at one node, in the order of the
    source; [warnings.push(w)] appends to the array that is passed along. *)
Definition warnNode (innerPlan : node) (warnings : list jsstring) : list jsstring :=
  let nodeType := NodeType innerPlan in
  let warnings :=
    if isString nodeType (lit "Seq Scan") then
      let rows := orElse (PlanRows innerPlan) 0 in
      if gt rows 10000 then warnings ++ [seqScanWarning innerPlan rows] else warnings
    else warnings in
  let warnings :=
    if isString nodeType (lit "Nested Loop") then
      let rows := orElse (PlanRows innerPlan) 0 in
      if gt rows 50000 then warnings ++ [nestedLoopWarning rows] else warnings
    else warnings in
  if isString nodeType (lit "Sort") || isString nodeType (lit "Hash") then
    let cost := orElse (TotalCost innerPlan) 0 in
    if gt cost 10000 then warnings ++ [highCostWarning nodeType cost] else warnings
  else warnings.

(** [extractWarnings(plan, warnings)]: the array [warnings] is mutated by
    [push]; here it is passed in and returned.  The [for ... of] loop over
    the children is a left fold. *)
Fixpoint extractWarnings (plan : node) (warnings : list jsstring) {struct plan}
  : list jsstring :=
  let innerPlan := match Plan plan with Some p => p | None => plan end in
  let warnings := warnNode innerPlan warnings in
  match Plans innerPlan with
  | Some plans =>
      fold_left (fun warnings child => extractWarnings child warnings) plans warnings
  | None => warnings
  end.

(** *** The walk, in the words of the specification *)

(** The nodes in depth-first pre-order, each one after unwrapping. *)
Fixpoint preorder (plan : node) : list node :=
  let innerPlan := match Plan plan with Some p => p | None => plan end in
  innerPlan ::
    match Plans innerPlan with
    | Some plans => flat_map preorder plans
    | None => []
    end.

(** The rule table: node type, trigger, message. *)
Definition nodeWarnings (n : node) : list jsstring :=
  let rows := orElse (PlanRows n) 0 in
  let cost := orElse (TotalCost n) 0 in
  if isString (NodeType n) (lit "Seq Scan") then
    if gt rows 10000 then [seqScanWarning n rows] else []
  else if isString (NodeType n) (lit "Nested Loop") then
    if gt rows 50000 then [nestedLoopWarning rows] else []
  else if isString (NodeType n) (lit "Sort") || isString (NodeType n) (lit "Hash") then
    if gt cost 10000 then [highCostWarning (NodeType n) cost] else []
  else [].

(** [if (!plan) return;] at the root, where the plan may be missing. *)
Definition extractWarningsOf (plan : option node) (warnings : list jsstring)
  : list jsstring :=
  match plan with
  | Some p => extractWarnings p warnings
  | None => warnings
  end.
End WithNumbers.
End Warnings.

(** ** [src/tools/optimization.ts]: the index suggestion engine *)

Module Optimization.

Inductive impact : Type := high | medium | low.

Record IndexSuggestion : Type :=
  { table : option jsstring;
    columns : list jsstring;
    reason : jsstring;
    impactOf : impact;
    createStatement : jsstring }.

Definition isComparisonChar (c : N) : bool :=
  ((c =? 61) || (c =? 60) || (c =? 62) || (c =? 33))%N.

(** [/\((\w+)\s*[=<>!]+/g], anchored: an opening parenthesis, the longest run
    of word characters (at least one), the longest run of white space, the
    longest run of comparison characters (at least one).  The three classes
    are disjoint, so giving back part of a run never makes a later part
    match: the greedy choice is the only one.  The capture is the run of
    word characters. *)
Definition matchColumn (s : jsstring) : option (jsstring * nat) :=
  match s with
  | [] => None
  | c :: r =>
      if (c =? 40)%N then
        let word := takeWhile isWordChar r in
        let r1 := dropWhile isWordChar r in
        let space := takeWhile isWhiteSpace r1 in
        let r2 := dropWhile isWhiteSpace r1 in
        let ops := takeWhile isComparisonChar r2 in
        match word, ops with
        | _ :: _, _ :: _ =>
            Some (word, 1 + List.length word + List.length space + List.length ops)%nat
        | _, _ => None
        end
      else None
  end.

(** The body of the [while] loop: [if (col && !columns.includes(col)) columns.push(col)] *)
Definition pushColumn (columns : list jsstring) (col : jsstring) : list jsstring :=
  match col with
  | [] => columns
  | _ :: _ => if includes columns col then columns else columns ++ [col]
  end.

Definition extractColumnsFromFilter (filter : jsstring) : list jsstring :=
  fold_left pushColumn (execAll matchColumn filter) [].

(** The index of the last full stop of [s]. *)
Fixpoint lastDot (s : jsstring) : option nat :=
  match s with
  | [] => None
  | c :: r =>
      match lastDot r with
      | Some n => Some (S n)
      | None => if (c =? 46)%N then Some 0%nat else None
      end
  end.

(** [/.*\./], anchored: greedily up to the last full stop of the line. *)
Definition matchQualifier (s : jsstring) : option nat :=
  option_map S (lastDot (takeWhile (fun c => negb (isLineTerminator c)) s)).

(** [/ (ASC|DESC)/i], anchored. *)
Definition matchDirection (s : jsstring) : option nat :=
  match matchLiteralCI (lit " ASC") s with
  | Some _ => Some 4%nat
  | None =>
      match matchLiteralCI (lit " DESC") s with
      | Some _ => Some 5%nat
      | None => None
      end
  end.

(** [k.replace(/.*\./, empty).replace(/ (ASC|DESC)/i, empty)] *)
Definition sortColumn (k : jsstring) : jsstring :=
  removeFirst matchDirection (removeFirst matchQualifier k).

Definition isTruthy (s : option jsstring) : bool :=
  match s with Some (_ :: _) => true | _ => false end.

Section WithNumbers.
Variable other : number -> jsstring.
Let show := numberToString other.

Definition scanSuggestion (schema : jsstring) (tbl : option jsstring)
           (cols : list jsstring) (estimatedRows : number) : IndexSuggestion :=
  {| table := tbl;
     columns := cols;
     reason := lit "Sequential scan with filter on " ++ join (lit ", ") cols
               ++ lit " scanning ~" ++ show estimatedRows ++ lit " rows";
     impactOf := if gt estimatedRows 100000 then high
                 else if gt estimatedRows 10000 then medium else low;
     createStatement :=
       lit "CREATE INDEX idx_" ++ template tbl ++ lit "_" ++ join (lit "_") cols
       ++ lit " ON " ++ schema ++ lit "." ++ template tbl
       ++ lit " (" ++ join (lit ", ") cols ++ lit ");" |}.

Definition sortSuggestion (schema : jsstring) (tbl : option jsstring)
           (cols : list jsstring) (estimatedRows : number) : IndexSuggestion :=
  {| table := Some (orElse tbl (lit "unknown"));
     columns := cols;
     reason := lit "Sort operation on " ++ join (lit ", ") cols ++ lit " with ~"
               ++ show estimatedRows
               ++ lit " rows. An index could eliminate the sort.";
     impactOf := if gt estimatedRows 50000 then high else medium;
     createStatement :=
       lit "-- Consider adding an index to support this sort:" ++ [10%N]
       ++ lit "-- CREATE INDEX idx_sort_" ++ join (lit "_") cols
       ++ lit " ON " ++ schema ++ lit ".<table> (" ++ join (lit ", ") cols
       ++ lit ");" |}.

(** The two rules of [analyzePlanNode] at one node, in the order of the
    source; [suggestions.push(s)] appends to the array that is passed along. *)
Definition suggestNode (node : node) (schema : jsstring)
           (suggestions : list IndexSuggestion) : list IndexSuggestion :=
  let nodeType := NodeType node in
  let tbl := RelationName node in
  let filter := Filter node in
  let estimatedRows := orElse (PlanRows node) 0 in
  let suggestions :=
    if isString nodeType (lit "Seq Scan") && isTruthy filter && gt estimatedRows 1000
    then
      let cols := extractColumnsFromFilter (orElse filter []) in
      match cols with
      | _ :: _ => suggestions ++ [scanSuggestion schema tbl cols estimatedRows]
      | [] => suggestions
      end
    else suggestions in
  if isString nodeType (lit "Sort") then
    match SortKey node with
    | Some sortKey =>
        let cols := map sortColumn sortKey in
        match cols with
        | _ :: _ =>
            if gt estimatedRows 5000
            then suggestions ++ [sortSuggestion schema tbl cols estimatedRows]
            else suggestions
        | [] => suggestions
        end
    | None => suggestions
    end
  else suggestions.

(** [analyzePlanNode(node, schema, suggestions)]: the array [suggestions] is
    mutated by [push]; here it is passed in and returned.  The node's
    properties are read from [node] itself. *)
Fixpoint analyzePlanNode (node : node) (schema : jsstring)
         (suggestions : list IndexSuggestion) {struct node}
  : list IndexSuggestion :=
  let suggestions := suggestNode node schema suggestions in
  match Plans node with
  | Some plans =>
      fold_left (fun suggestions child => analyzePlanNode child schema suggestions)
                plans suggestions
  | None => suggestions
  end.

(** The part of [suggestIndexes] after the plan has been fetched:
    [analyzePlanNode(plan["Plan"] ?? plan, schema, suggestions)] on a fresh
    array. *)
Definition suggestIndexes (plan : node) (schema : jsstring) : list IndexSuggestion :=
  analyzePlanNode (orElse (Plan plan) plan) schema [].

(** *** The traversal, in the words of the specification *)

(** "same envelope-unwrapping rule as 4.2": at each node, a possible
    [{Plan: <node>}] envelope is unwrapped before the fields are read. *)
Fixpoint analyzePlanNode_unwrapping (plan : node) (schema : jsstring)
         (suggestions : list IndexSuggestion) {struct plan}
  : list IndexSuggestion :=
  let innerPlan := match Plan plan with Some p => p | None => plan end in
  let suggestions := suggestNode innerPlan schema suggestions in
  match Plans innerPlan with
  | Some plans =>
      fold_left
        (fun suggestions child => analyzePlanNode_unwrapping child schema suggestions)
        plans suggestions
  | None => suggestions
  end.

Definition suggestIndexes_spec (plan : node) (schema : jsstring)
  : list IndexSuggestion :=
  analyzePlanNode_unwrapping plan schema [].
End WithNumbers.

(** The node and the nodes below it, in depth-first pre-order, as they are. *)
Fixpoint descendants (n : node) : list node :=
  n :: match Plans n with
       | Some plans => flat_map descendants plans
       | None => []
       end.

(** Neither the node nor a node below it is an envelope. *)
Fixpoint noEnvelope (n : node) : bool :=
  match Plan n with
  | Some _ => false
  | None =>
      match Plans n with
      | Some plans => forallb noEnvelope plans
      | None => true
      end
  end.

(** An object with the single property [Plan]. *)
Definition envelope (p : node) : node :=
  Node None None None None None None None (Some p).

(** Each value once, at the place where it is first seen. *)
Fixpoint firstSeen (l : list jsstring) : list jsstring :=
  match l with
  | [] => []
  | x :: r => x :: filter (fun y => negb (eqString y x)) (firstSeen r)
  end.

(** "stripping any qualifying table prefix": an identifier and a full stop in
    front of the key. *)
Definition stripQualifier_spec (k : jsstring) : jsstring :=
  match takeWhile isWordChar k, dropWhile isWordChar k with
  | _ :: _, c :: rest => if (c =? 46)%N then rest else k
  | _, _ => k
  end.

(** "and trailing ASC/DESC direction marker": the marker at the end of the
    key. *)
Definition stripDirection_spec (k : jsstring) : jsstring :=
  match matchLiteralCI (lit "CSA ") (rev k) with
  | Some (_, rest) => rev rest
  | None =>
      match matchLiteralCI (lit "CSED ") (rev k) with
      | Some (_, rest) => rev rest
      | None => k
      end
  end.

Definition sortColumn_spec (k : jsstring) : jsstring :=
  stripDirection_spec (stripQualifier_spec k).

(** A code unit that is no full stop, and one that is no line terminator. *)
Definition noDot (c : N) : Prop := (c =? 46)%N = false.
Definition noBreak (c : N) : Prop := isLineTerminator c = false.

(** A direction marker: nothing, or [ ASC] or [ DESC] in any case. *)
Definition isDirection (d : jsstring) : Prop :=
  d = []
  \/ Forall2 (fun p c => eqCI p c = true) (lit " ASC") d
  \/ Forall2 (fun p c => eqCI p c = true) (lit " DESC") d.

(** The [cache_hit_ratio] property of the report of [getDatabaseHealth]:
    [rows[0]?.cache_hit_ratio ? `${rows[0].cache_hit_ratio}%` : N/A].
    A row of the sub-query holds the text of the ratio or [null] ([None]). *)
Definition cacheHitRatioField (rows : list (option jsstring)) : jsstring :=
  let value := match rows with [] => None | row :: _ => row end in
  if isTruthy value then orElse value [] ++ lit "%" else lit "N/A".

(** What the sub-query puts in the column when it is not NULL: the text of
    [round(..., 2)::text], a non-negative numeric with two decimals, that is
    at least one digit, a full stop and two digits. *)
Definition isDigit (c : N) : bool := inRange 48 57 c.

Definition isRatioText (t : jsstring) : bool :=
  match takeWhile isDigit t, dropWhile isDigit t with
  | _ :: _, [dot; d1; d2] => (dot =? 46)%N && isDigit d1 && isDigit d2
  | _, _ => false
  end.

End Optimization.

(** ** [src/database.ts]: the connection manager

    The [pg] pool and its clients are external.  Each awaited call on them is
    recorded in a log, and what it answers (a value, or a rejection with an
    error) is given by an environment that may depend on everything that
    happened before.  A method of [DatabaseManager] is a computation over the
    manager's two fields and the log, in a state monad with exceptions; the
    methods run one after the other. *)

Module Database.

Record ConnectionConfig : Type :=
  { host : jsstring;
    port : number;
    database : jsstring;
    user : jsstring;
    password : jsstring;
    ssl : option bool }.

Record SslOptions : Type := { rejectUnauthorized : bool }.

Record PoolConfig : Type :=
  { pc_host : jsstring;
    pc_port : number;
    pc_database : jsstring;
    pc_user : jsstring;
    pc_password : jsstring;
    pc_ssl : option SslOptions;
    max : number;
    idleTimeoutMillis : number;
    connectionTimeoutMillis : number }.

(** the handle returned by [new Pool(poolConfig)] *)
Record Pool : Type := { poolConfigOf : PoolConfig }.

Inductive event : Type :=
| PoolConnect (ok : bool)                   (* await pool.connect() *)
| PoolEnd (ok : bool)                       (* await pool.end() *)
| PoolQuery (text : jsstring) (ok : bool)   (* pool.query(sql, params) *)
| ClientQuery (text : jsstring) (ok : bool) (* await client.query(...) *)
| ClientRelease.                            (* client.release() *)

(** the fields of [DatabaseManager] *)
Record manager : Type :=
  { pool : option Pool;
    config : option ConnectionConfig }.

Record state : Type :=
  { this : manager;
    log : list event }.

Definition initial : state :=
  {| this := {| pool := None; config := None |}; log := [] |}.

Definition beginText : jsstring := lit "BEGIN TRANSACTION READ ONLY".
Definition commitText : jsstring := lit "COMMIT".
Definition rollbackText : jsstring := lit "ROLLBACK".
Definition notConnectedMessage : jsstring :=
  lit "Not connected to any database. Use the 'connect' tool first.".

Section Methods.
(** the rows type [T] of [QueryResult<T>] *)
Variable QueryResult : Type.

(** The environment: the outcome of each external call, given the log. *)
Variable connectOutcome : list event -> completion unit.
Variable endOutcome : list event -> completion unit.
Variable queryOutcome : list event -> jsstring -> completion QueryResult.

Definition M (A : Type) : Type := state -> completion A * state.

Definition ret {A : Type} (a : A) : M A := fun s => (Return a, s).
Definition throw {A : Type} (e : jsstring) : M A := fun s => (Throw e, s).
Definition bind {A B : Type} (m : M A) (k : A -> M B) : M B :=
  fun s =>
    match m s with
    | (Return a, s') => k a s'
    | (Throw e, s') => (Throw e, s')
    end.

(** [try { body } catch (error) { handler(error) }] *)
Definition tryCatch {A : Type} (body : M A) (handler : jsstring -> M A) : M A :=
  fun s =>
    match body s with
    | (Return a, s') => (Return a, s')
    | (Throw e, s') => handler e s'
    end.

(** [try { body } finally { cleanup }]: the completion of [body] is kept
    unless [cleanup] throws. *)
Definition tryFinally {A : Type} (body : M A) (cleanup : M unit) : M A :=
  fun s =>
    let '(c, s') := body s in
    match cleanup s' with
    | (Return _, s'') => (c, s'')
    | (Throw e, s'') => (Throw e, s'')
    end.

Notation "x <- m ;; k" := (bind m (fun x => k))
  (at level 61, m at next level, right associativity).
Notation "m ;; k" := (bind m (fun _ => k))
  (at level 61, right associativity).

Definition isOk {A : Type} (c : completion A) : bool :=
  match c with Return _ => true | Throw _ => false end.

(** an external call: ask the environment, record the call *)
Definition external {A : Type} (outcome : list event -> completion A)
           (ev : bool -> event) : M A :=
  fun s =>
    let c := outcome (log s) in
    (c, {| this := this s; log := log s ++ [ev (isOk c)] |}).

Definition poolConnect : M unit := external connectOutcome PoolConnect.
Definition poolEnd : M unit := external endOutcome PoolEnd.
Definition poolQuery (text : jsstring) : M QueryResult :=
  external (fun l => queryOutcome l text) (PoolQuery text).
Definition clientQuery (text : jsstring) : M QueryResult :=
  external (fun l => queryOutcome l text) (ClientQuery text).
Definition clientRelease : M unit :=
  fun s => (Return tt, {| this := this s; log := log s ++ [ClientRelease] |}).

Definition getThis : M manager := fun s => (Return (this s), s).
Definition setThis (m : manager) : M unit :=
  fun s => (Return tt, {| this := m; log := log s |}).

Definition ensureConnected : M unit :=
  m <- getThis ;;
  match pool m with
  | Some _ => ret tt
  | None => throw notConnectedMessage
  end.

Definition disconnect : M unit :=
  m <- getThis ;;
  match pool m with
  | Some _ =>
      poolEnd ;;
      m <- getThis ;;
      setThis {| pool := None; config := config m |} ;;
      m <- getThis ;;
      setThis {| pool := pool m; config := None |}
  | None => ret tt
  end.

Definition connect (cfg : ConnectionConfig) : M unit :=
  m <- getThis ;;
  (match pool m with
   | Some _ => disconnect
   | None => ret tt
   end) ;;
  let poolConfig :=
    {| pc_host := host cfg;
       pc_port := port cfg;
       pc_database := database cfg;
       pc_user := user cfg;
       pc_password := password cfg;
       pc_ssl := match ssl cfg with
                 | Some true => Some {| rejectUnauthorized := false |}
                 | _ => None
                 end;
       max := 5;
       idleTimeoutMillis := 30000;
       connectionTimeoutMillis := 10000 |} in
  m <- getThis ;;
  setThis {| pool := Some {| poolConfigOf := poolConfig |}; config := config m |} ;;
  m <- getThis ;;
  setThis {| pool := pool m; config := Some cfg |} ;;
  poolConnect ;;
  clientRelease.

Definition isConnected (s : state) : bool :=
  match pool (this s) with Some _ => true | None => false end.

Definition getConnectionInfo (s : state) : option ConnectionConfig :=
  config (this s).

Definition queryReadOnly (sql : jsstring) : M QueryResult :=
  ensureConnected ;;
  poolConnect ;;
  tryFinally
    (tryCatch
       (clientQuery beginText ;;
        result <- clientQuery sql ;;
        clientQuery commitText ;;
        ret result)
       (fun error =>
          clientQuery rollbackText ;;
          throw error))
    clientRelease.

Definition query (sql : jsstring) : M QueryResult :=
  ensureConnected ;;
  poolQuery sql.

(** *** The operations of the manager, one after the other *)

Inductive operation : Type :=
| Connect (cfg : ConnectionConfig)
| Disconnect
| QueryReadOnly (sql : jsstring)
| Query (sql : jsstring).

(** The state after an operation, whether it returned or threw. *)
Definition perform (op : operation) (s : state) : state :=
  match op with
  | Connect cfg => snd (connect cfg s)
  | Disconnect => snd (disconnect s)
  | QueryReadOnly sql => snd (queryReadOnly sql s)
  | Query sql => snd (query sql s)
  end.

Definition performAll (ops : list operation) (s : state) : state :=
  fold_left (fun s op => perform op s) ops s.

End Methods.

(** The pool handle and the stored configuration are both null or both set. *)
Definition consistent (s : state) : Prop :=
  (pool (this s) = None /\ config (this s) = None)
  \/ (pool (this s) <> None /\ config (this s) <> None).

Definition isClientQuery (ev : event) : Prop :=
  match ev with ClientQuery _ _ => True | _ => False end.

(** How many times a client was released. *)
Fixpoint releases (evs : list event) : nat :=
  match evs with
  | [] => 0
  | ClientRelease :: rest => S (releases rest)
  | _ :: rest => releases rest
  end.

(** Whether a transaction is open on the client after the events: a
    successful BEGIN opens one, a successful COMMIT or ROLLBACK closes it, a
    command that failed changes nothing. *)
Fixpoint transactionOpen (open : bool) (evs : list event) : bool :=
  match evs with
  | [] => open
  | ClientQuery text true :: rest =>
      if eqString text beginText then transactionOpen true rest
      else if eqString text commitText || eqString text rollbackText
           then transactionOpen false rest
           else transactionOpen open rest
  | _ :: rest => transactionOpen open rest
  end.

End Database.

(** ** [src/tools/query.ts]: the methods of [QueryTools]

    The methods are computations of the connection manager's monad.  What
    [pg] returns is read through the three properties the tools use;
    [performance.now()] is a clock of the environment and [JSON.stringify] a
    printer that is taken as a parameter.  The [params] array is handed to
    the client as it is and is not recorded. *)

Module QueryTools.
Import Database.

(** [QueryResult<T>] of [pg], as the tools read it. *)
Record QueryResult (Row : Type) : Type :=
  { rows : list Row;
    fields : list jsstring;       (* the [name] of each field *)
    rowCount : option number }.   (* [number | null] *)

Notation "x <- m ;; k" := (bind m (fun x => k))
  (at level 61, m at next level, right associativity).
Notation "m ;; k" := (bind m (fun _ => k))
  (at level 61, right associativity).

(** A synchronous call that may throw, inside an [async] method. *)
Definition sync {A : Type} (c : completion A) : M A := fun s => (c, s).

(** [Math.round] of a double: the nearest integer, a half rounded up; that
    integer is a double again, so nothing is lost. *)
Definition mathRound (x : number) : number := inject_Z (Qfloor (x + (1 # 2))).

(** The top-level object of an EXPLAIN result: it is handed to
    [extractWarnings] as a plan, and its property [Planning Time] is read. *)
Record explainObject : Type :=
  { asNode : node;
    PlanningTime : option number }.

(** What a row holds in the column [QUERY PLAN]: nothing ([undefined]),
    [null], the array [pg] parses, whose elements are objects or [null], or
    an object. *)
Inductive planJson : Type :=
| PlanAbsent
| PlanNullColumn
| PlanArray (elements : list (option explainObject))
| PlanObject (object : explainObject).

(** The value of [plan]: [undefined], [null] or an object. *)
Inductive planValue : Type :=
| PlanUndefined
| PlanNull
| PlanIs (object : explainObject).

(** [Array.isArray(planJson) ? planJson[0] : planJson] on
    [result.rows[0]?.["QUERY PLAN"]]; a row holds the value of the column.
    Without a row, and for an empty array, the value is [undefined]. *)
Definition planOf (result : QueryResult planJson) : planValue :=
  match rows result with
  | [] => PlanUndefined
  | row :: _ =>
      match row with
      | PlanAbsent => PlanUndefined
      | PlanNullColumn => PlanNull
      | PlanArray [] => PlanUndefined
      | PlanArray (None :: _) => PlanNull
      | PlanArray (Some object :: _) => PlanIs object
      | PlanObject object => PlanIs object
      end
  end.

(** The plan as an object, where the code tests [!plan] or reads with [?.]:
    [null] and [undefined] behave alike there. *)
Definition objectOf (plan : planValue) : option explainObject :=
  match plan with
  | PlanIs object => Some object
  | PlanUndefined | PlanNull => None
  end.

Definition explainAnalyzePrefix : jsstring := lit "EXPLAIN (ANALYZE, BUFFERS, FORMAT JSON)".
Definition explainPrefix : jsstring := lit "EXPLAIN (FORMAT JSON)".

Record QueryResultFormatted (Row : Type) : Type :=
  { columns : list jsstring;
    resultRows : list Row;            (* [rows] *)
    resultRowCount : number;          (* [rowCount] *)
    executionTimeMs : number }.

Record QueryPlan : Type :=
  { plan : option jsstring;
    planningTimeMs : number;
    planExecutionTimeMs : number;     (* [executionTimeMs] *)
    warnings : list jsstring }.

Record QueryCost : Type :=
  { estimatedCost : number;
    estimatedRows : number;
    planNodeType : jsstring;
    details : option jsstring }.

Section Methods.
Variable other : number -> jsstring.
Variable connectOutcome : list event -> completion unit.
Variable now : list event -> number.
(** The subtraction of doubles: the difference of the two values, rounded
    to the nearest double. *)
Variable minus : number -> number -> number.

(** [performance.now()] *)
Definition performanceNow : M number := fun s => (Return (now (log s)), s).

Section ExecuteQuery.
Variable Row : Type.
Variable queryOutcome : list event -> jsstring -> completion (QueryResult Row).

Definition executeQuery (sql : jsstring) (limit : number)
  : M (QueryResultFormatted Row) :=
  sync (Query.validateReadOnly sql) ;;
  let normalizedSql := Query.ensureLimit other sql limit in
  start <- performanceNow ;;
  result <- queryReadOnly connectOutcome queryOutcome normalizedSql ;;
  finish <- performanceNow ;;
  ret {| columns := fields result;
         resultRows := rows result;
         resultRowCount := orElse (rowCount result) 0;
         executionTimeMs := mathRound (minus finish start) |}.
End ExecuteQuery.

Section Explain.
Variable queryOutcome :
  list event -> jsstring -> completion (QueryResult planJson).
(** [JSON.stringify(plan, null, 2)] on an object. *)
Variable stringifyPlan : explainObject -> jsstring.
(** [JSON.stringify(plan["Plan"], null, 2)] for an object [plan]:
    [undefined] when the property is absent, a text otherwise. *)
Variable stringifyTopPlan : explainObject -> option jsstring.

(** [JSON.stringify(plan, null, 2)]: [undefined] on [undefined], the text
    [null] on [null]. *)
Definition stringify (plan : planValue) : option jsstring :=
  match plan with
  | PlanUndefined => None
  | PlanNull => Some (lit "null")
  | PlanIs object => Some (stringifyPlan object)
  end.

Definition explainQuery (sql : jsstring) (analyze : bool) : M QueryPlan :=
  sync (Query.validateReadOnly sql) ;;
  let prefix := if analyze then explainAnalyzePrefix else explainPrefix in
  start <- performanceNow ;;
  result <- queryReadOnly connectOutcome queryOutcome (prefix ++ lit " " ++ sql) ;;
  finish <- performanceNow ;;
  let value := planOf result in
  let planObj := objectOf value in
  let warnings := Warnings.extractWarningsOf other (option_map asNode planObj) [] in
  ret {| plan := stringify value;
         planningTimeMs :=
           orElse (match planObj with
                   | Some o => PlanningTime o
                   | None => None
                   end) 0;
         planExecutionTimeMs := mathRound (minus finish start);
         warnings := warnings |}.

Definition getQueryCost (sql : jsstring) : M QueryCost :=
  sync (Query.validateReadOnly sql) ;;
  result <- queryReadOnly connectOutcome queryOutcome
                          (lit "EXPLAIN (FORMAT JSON) " ++ sql) ;;
  let planObj := objectOf (planOf result) in
  let topPlan := match planObj with
                 | Some o => Plan (asNode o)
                 | None => None
                 end in
  ret {| estimatedCost :=
           orElse (match topPlan with Some t => TotalCost t | None => None end) 0;
         estimatedRows :=
           orElse (match topPlan with Some t => PlanRows t | None => None end) 0;
         planNodeType :=
           orElse (match topPlan with Some t => NodeType t | None => None end)
                  (lit "Unknown");
         details := match planObj with
                    | Some o => stringifyTopPlan o
                    | None => None
                    end |}.
End Explain.
End Methods.
End QueryTools.

(** ** [src/tools/optimization.ts]: [suggestIndexes] and [getSlowQueries] *)

Module OptimizationTools.
Import Database QueryTools.

(** Reading a property of [undefined] or of [null] throws a TypeError; the
    messages are those of V8, the engine of the image the server is built
    for. *)
Definition undefinedPlanMessage : jsstring :=
  lit "Cannot read properties of undefined (reading 'Plan')".

Definition nullPlanMessage : jsstring :=
  lit "Cannot read properties of null (reading 'Plan')".

Definition slowQueriesText : jsstring :=
  join [10%N]
    [ lit "SELECT";
      lit "          query,";
      lit "          calls,";
      lit "          round(total_exec_time::numeric, 2) AS " ++ quote
        ++ lit "totalTimeMs" ++ quote ++ lit ",";
      lit "          round(mean_exec_time::numeric, 2) AS " ++ quote
        ++ lit "meanTimeMs" ++ quote ++ lit ",";
      lit "          round(stddev_exec_time::numeric, 2) AS " ++ quote
        ++ lit "stddevTimeMs" ++ quote ++ lit ",";
      lit "          rows";
      lit "         FROM pg_stat_statements";
      lit "         WHERE query NOT LIKE '%pg_stat_statements%'";
      lit "         ORDER BY mean_exec_time DESC";
      lit "         LIMIT $1" ].

Definition extensionMessage : jsstring :=
  lit "pg_stat_statements extension is not available. "
  ++ lit "Install it with: CREATE EXTENSION pg_stat_statements;".

Section Methods.
Variable other : number -> jsstring.
Variable connectOutcome : list event -> completion unit.

Section SuggestIndexes.
Variable queryOutcome :
  list event -> jsstring -> completion (QueryResult planJson).

(** [suggestIndexes(sql, schema)]: the plan is fetched and walked; the
    statement is not validated here. *)
Definition suggestIndexes (sql schema : jsstring)
  : M (list Optimization.IndexSuggestion) :=
  result <- queryReadOnly connectOutcome queryOutcome
                          (lit "EXPLAIN (FORMAT JSON) " ++ sql) ;;
  match planOf result with
  | PlanIs o => ret (Optimization.suggestIndexes other (asNode o) schema)
  | PlanNull => throw nullPlanMessage
  | PlanUndefined => throw undefinedPlanMessage
  end.
End SuggestIndexes.

Section SlowQueries.
Variable SlowQuery : Type.
Variable queryOutcome : list event -> jsstring -> completion (QueryResult SlowQuery).

(** [getSlowQueries(limit)]: the [catch] has no binding; whatever was thrown
    is replaced. *)
Definition getSlowQueries (limit : number) : M (list SlowQuery) :=
  tryCatch
    (result <- queryReadOnly connectOutcome queryOutcome slowQueriesText ;;
     ret (rows result))
    (fun _ => throw extensionMessage).
End SlowQueries.
End Methods.
End OptimizationTools.

(** ** [src/index.ts]: the connection tools of the server *)

Module Server.
Import Database QueryTools.

Record content : Type :=
  { type : jsstring;
    text : jsstring }.

Definition textContent (t : jsstring) : list content :=
  [ {| type := lit "text"; text := t |} ].

(** [errorResult(error)]: what is thrown here is always an [Error], so the
    text carries its message. *)
Definition errorResult (message : jsstring) : list content :=
  textContent (lit "Error: " ++ message).

Section Handlers.
Variable other : number -> jsstring.
Variable connectOutcome : list event -> completion unit.
Variable endOutcome : list event -> completion unit.

(** The handler of the tool [connect]; [params] has the shape of a
    [ConnectionConfig]. *)
Definition connectTool (params : ConnectionConfig) : M (list content) :=
  tryCatch
    (connect connectOutcome endOutcome params ;;
     ret (textContent
            (lit "Successfully connected to PostgreSQL at " ++ host params
             ++ lit ":" ++ numberToString other (port params)
             ++ lit "/" ++ database params)))
    (fun error => ret (errorResult error)).

(** The handler of the tool [disconnect]. *)
Definition disconnectTool : M (list content) :=
  tryCatch
    (disconnect endOutcome ;;
     ret (textContent (lit "Disconnected successfully.")))
    (fun error => ret (errorResult error)).

(** The handler of the tool [connection_status]. *)
Definition connectionStatusTool : M (list content) :=
  fun s =>
    match getConnectionInfo s with
    | None => (Return (textContent (lit "Not connected to any database.")), s)
    | Some info =>
        (Return (textContent
                   (lit "Connected to " ++ host info ++ lit ":"
                    ++ numberToString other (port info) ++ lit "/"
                    ++ database info ++ lit " as " ++ user info)), s)
    end.
End Handlers.
End Server.

(** ** Notions used to state further properties *)

Module Notions.

(** [s] starts with [pat]; [pat] occurs somewhere in [s]. *)
Fixpoint startsWith (pat s : jsstring) : bool :=
  match pat, s with
  | [], _ => true
  | _ :: _, [] => false
  | p :: pat', c :: r => (p =? c)%N && startsWith pat' r
  end.

Fixpoint occursIn (pat s : jsstring) : bool :=
  startsWith pat s ||
  match s with
  | [] => false
  | _ :: r => occursIn pat r
  end.

(** Two code units that are equal up to the case of an ASCII letter, and two
    texts that are so position by position. *)
Definition sameLetter (c d : N) : Prop := canonicalize c = canonicalize d.
Definition sameUpToCase (s t : jsstring) : Prop := Forall2 sameLetter s t.

Fixpoint equalUpToCase (s t : jsstring) : bool :=
  match s, t with
  | [], [] => true
  | c :: s', d :: t' => eqCI c d && equalUpToCase s' t'
  | _, _ => false
  end.

(** Related code units, or none on either side. *)
Definition sameOption (a b : option N) : Prop :=
  match a, b with
  | Some c, Some d => sameLetter c d
  | None, None => True
  | _, _ => False
  end.

(** No line terminator in the text. *)
Definition oneLine (s : jsstring) : bool :=
  forallb (fun c => negb (isLineTerminator c)) s.

(** The removal of line comments as a scan with one bit of state: inside a
    comment everything up to the line terminator is dropped. *)
Fixpoint stripLine (inComment : bool) (s : jsstring) : jsstring :=
  match s with
  | [] => []
  | c :: r =>
      if inComment then
        if isLineTerminator c then c :: stripLine false r else stripLine true r
      else
        match r with
        | d :: _ =>
            if ((c =? 45) && (d =? 45))%N then stripLine true r
            else c :: stripLine false r
        | [] => [c]
        end
  end.

(** The property [text] of the first element of a tool's [content]. *)
Definition firstText (c : list Server.content) : jsstring :=
  match c with
  | [] => []
  | item :: _ => Server.text item
  end.

End Notions.

(** * Properties *)

Unset Implicit Arguments.

(** ** Strings and the matching loops *)

Module JSFacts.

Lemma dropWhile_takeWhile (f : N -> bool) (s : jsstring) :
  s = takeWhile f s ++ dropWhile f s.
Proof.
  induction s as [|c r IH]; simpl; [reflexivity|].
  destruct (f c); simpl; congruence.
Qed.

Lemma takeWhile_all (f : N -> bool) (s : jsstring) :
  Forall (fun c => f c = true) (takeWhile f s).
Proof.
  induction s as [|c r IH]; simpl; [constructor|].
  destruct (f c) eqn:E; constructor; assumption.
Qed.

Lemma dropWhile_head (f : N -> bool) (s : jsstring) :
  match dropWhile f s with [] => True | c :: _ => f c = false end.
Proof.
  induction s as [|c r IH]; simpl; [exact I|].
  destruct (f c) eqn:E; [exact IH | exact E].
Qed.

Lemma dropWhile_stop (f : N -> bool) (c : N) (r : jsstring) :
  f c = false -> dropWhile f (c :: r) = c :: r.
Proof. intros H; simpl; now rewrite H. Qed.

Lemma dropWhile_app_last (f : N -> bool) (a : jsstring) (c : N) :
  f c = false -> dropWhile f (a ++ [c]) = dropWhile f a ++ [c].
Proof.
  intros H; induction a as [|d a IH]; simpl.
  - now rewrite H.
  - destruct (f d); [exact IH | reflexivity].
Qed.

Lemma dropWhile_app_stop (f : N -> bool) (c : N) (r y : jsstring) :
  f c = false -> dropWhile f ((c :: r) ++ y) = (c :: r) ++ y.
Proof. intros H; simpl; now rewrite H. Qed.

Lemma trimEnd_split (s : jsstring) :
  s = trimEnd s ++ rev (takeWhile isWhiteSpace (rev s)).
Proof.
  unfold trimEnd. rewrite <- rev_app_distr, <- dropWhile_takeWhile.
  now rewrite rev_involutive.
Qed.

Lemma trimEnd_cons (c : N) (l : jsstring) :
  isWhiteSpace c = false ->
  trimEnd (c :: l) = c :: trimEnd l.
Proof.
  intros H; unfold trimEnd; simpl rev.
  rewrite dropWhile_app_last by assumption.
  now rewrite rev_app_distr.
Qed.

Lemma trimEnd_last (s : jsstring) :
  match rev (trimEnd s) with [] => True | c :: _ => isWhiteSpace c = false end.
Proof.
  unfold trimEnd; rewrite rev_involutive. apply dropWhile_head.
Qed.

(** [trim] removes a run of white space at either end and nothing else. *)
Lemma trim_split (s : jsstring) :
  exists pre post,
    s = pre ++ trim s ++ post
    /\ Forall (fun c => isWhiteSpace c = true) pre
    /\ Forall (fun c => isWhiteSpace c = true) post.
Proof.
  exists (takeWhile isWhiteSpace s),
         (rev (takeWhile isWhiteSpace (rev (trimStart s)))).
  split; [|split].
  - unfold trim. rewrite <- trimEnd_split. apply dropWhile_takeWhile.
  - apply takeWhile_all.
  - apply Forall_rev, takeWhile_all.
Qed.

Lemma trim_head (s : jsstring) :
  match trim s with [] => True | c :: _ => isWhiteSpace c = false end.
Proof.
  unfold trim, trimStart.
  pose proof (dropWhile_head isWhiteSpace s) as H.
  destruct (dropWhile isWhiteSpace s) as [|c r]; [exact I|].
  now rewrite trimEnd_cons.
Qed.

Lemma trim_last (s : jsstring) :
  match rev (trim s) with [] => True | c :: _ => isWhiteSpace c = false end.
Proof. apply trimEnd_last. Qed.

(** A text with nothing to trim is left as it is. *)
Lemma trim_fixed (s : jsstring) :
  match s with [] => True | c :: _ => isWhiteSpace c = false end ->
  match rev s with [] => True | c :: _ => isWhiteSpace c = false end ->
  trim s = s.
Proof.
  intros Hh Hl. unfold trim, trimStart.
  assert (E : dropWhile isWhiteSpace s = s).
  { destruct s as [|c r]; [reflexivity | now apply dropWhile_stop]. }
  rewrite E. unfold trimEnd.
  assert (E' : dropWhile isWhiteSpace (rev s) = rev s).
  { destruct (rev s) as [|c r]; [reflexivity | now apply dropWhile_stop]. }
  rewrite E'. apply rev_involutive.
Qed.

(** Every capture of a global scan is the capture of an anchored match. *)
Lemma captures_all {A : Type} (matchHere : jsstring -> option (A * nat))
      (P : A -> Prop) :
  (forall s a len, matchHere s = Some (a, len) -> P a) ->
  forall s skip, Forall P (captures (scanGlobal matchHere skip s)).
Proof.
  intros H s; induction s as [|c r IH]; intros skip; simpl; [constructor|].
  destruct skip as [|k]; [|apply IH].
  destruct (matchHere (c :: r)) as [[a len]|] eqn:M; simpl; [|apply IH].
  constructor; [exact (H _ _ _ M) | apply IH].
Qed.

(** *** [test]: a match at some position *)

Lemma lastOr_app (prev : option N) (a : jsstring) (c : N) :
  lastOr prev (a ++ [c]) = Some c.
Proof. revert prev; induction a as [|d a IH]; intros prev; simpl; auto. Qed.

Lemma testFrom_iff (matchAt : option N -> jsstring -> bool)
      (prev : option N) (s : jsstring) :
  testFrom matchAt prev s = true <->
  exists pre post, s = pre ++ post /\ matchAt (lastOr prev pre) post = true.
Proof.
  revert prev; induction s as [|c r IH]; intros prev; simpl.
  - rewrite orb_false_r. split.
    + intros H. now exists [], [].
    + intros (pre & post & E & H).
      symmetry in E. apply app_eq_nil in E as [-> ->]. exact H.
  - rewrite orb_true_iff, IH. split.
    + intros [H | (pre & post & E & H)].
      * now exists [], (c :: r).
      * exists (c :: pre), post. split; [now rewrite E | exact H].
    + intros (pre & post & E & H).
      destruct pre as [|d pre]; simpl in *.
      * left. now rewrite E.
      * right. injection E as -> ->. now exists pre, post.
Qed.

Lemma matchLiteralCI_sound (pat s m rest : jsstring) :
  matchLiteralCI pat s = Some (m, rest) ->
  s = m ++ rest /\ Forall2 (fun p c => eqCI p c = true) pat m.
Proof.
  revert s m rest; induction pat as [|p pat IH]; intros s m rest; simpl.
  - intros [= <- <-]. split; [reflexivity | constructor].
  - destruct s as [|c r]; [discriminate|].
    destruct (eqCI p c) eqn:E; [|discriminate].
    destruct (matchLiteralCI pat r) as [[m' rest']|] eqn:M; [|discriminate].
    intros [= <- <-]. destruct (IH _ _ _ M) as [-> F].
    split; [reflexivity | now constructor].
Qed.

Lemma matchLiteralCI_complete (pat m rest : jsstring) :
  Forall2 (fun p c => eqCI p c = true) pat m ->
  matchLiteralCI pat (m ++ rest) = Some (m, rest).
Proof.
  induction 1 as [|p c pat m E F IH]; simpl; [reflexivity|].
  now rewrite E, IH.
Qed.

Lemma matchLiteralCI_app (pat s m rest y : jsstring) :
  matchLiteralCI pat s = Some (m, rest) ->
  matchLiteralCI pat (s ++ y) = Some (m, rest ++ y).
Proof.
  intros H. apply matchLiteralCI_sound in H as [-> F].
  rewrite <- app_assoc. now apply matchLiteralCI_complete.
Qed.

End JSFacts.

(** ** The SQL safety validator *)

Module QueryFacts.
Import JSFacts Query.

(** The first pattern with a match in the text decides [checkPatterns]. *)
Lemma checkPatterns_return (ps : list pattern) (text : jsstring) :
  checkPatterns ps text = Return tt <->
  forall p, In p ps -> testWord (alternatives p) text = false.
Proof.
  induction ps as [|p ps IH]; simpl.
  - split; [intros _ q [] | reflexivity].
  - destruct (testWord (alternatives p) text) eqn:E.
    + split; [discriminate|]. intros H.
      specialize (H p (or_introl eq_refl)). congruence.
    + rewrite IH. split.
      * intros H q [<- | Hq]; [exact E | now apply H].
      * intros H q Hq. apply H. now right.
Qed.

Lemma checkPatterns_throw (ps : list pattern) (text message : jsstring) :
  checkPatterns ps text = Throw message ->
  exists p, In p ps /\ testWord (alternatives p) text = true
            /\ message = forbiddenMessage p.
Proof.
  induction ps as [|p ps IH]; simpl; [discriminate|].
  destruct (testWord (alternatives p) text) eqn:E.
  - intros [= <-]. exists p. auto.
  - intros H. destruct (IH H) as (q & Hq & Ht & Hm). exists q. auto.
Qed.

Lemma testWord_occurs (alts : list jsstring) (text : jsstring) :
  testWord alts text = true <-> occursAsWord alts text.
Proof.
  unfold testWord, test, occursAsWord. rewrite testFrom_iff. split.
  - intros (pre & rest & -> & H). unfold matchWordAt in H.
    apply andb_true_iff in H as [B1 H]. apply existsb_exists in H as (kw & Hin & H).
    destruct (matchLiteralCI kw rest) as [[m post]|] eqn:M; [|discriminate].
    apply matchLiteralCI_sound in M as [-> F].
    exists pre, m, post, kw. auto.
  - intros (pre & m & post & kw & -> & Hin & F & B1 & B2).
    exists pre, (m ++ post). split; [reflexivity|].
    unfold matchWordAt. rewrite B1. simpl. apply existsb_exists.
    exists kw. split; [exact Hin|].
    now rewrite (matchLiteralCI_complete _ _ post F).
Qed.

(** What the validator decides, on every text: it throws exactly when one of
    the three patterns has a whole-word match in the text left by the two
    comment removals, with the message that carries the source of the first
    such pattern. *)
Lemma validateReadOnly_on_cleaned (sql : jsstring) :
  (validateReadOnly sql = Return tt <->
   forall p, In p forbidden -> ~ occursAsWord (alternatives p) (cleaned sql))
  /\ (forall message, validateReadOnly sql = Throw message ->
      exists p, In p forbidden /\ occursAsWord (alternatives p) (cleaned sql)
                /\ message = forbiddenMessage p).
Proof.
  unfold validateReadOnly. split.
  - rewrite checkPatterns_return. split; intros H p Hp.
    + rewrite <- testWord_occurs, (H p Hp). discriminate.
    + specialize (H p Hp). rewrite <- testWord_occurs in H.
      now destruct (testWord (alternatives p) (cleaned sql)).
  - intros message H. apply checkPatterns_throw in H as (p & Hp & Ht & Hm).
    exists p. rewrite <- testWord_occurs. auto.
Qed.

(** C1, at the statement [DROP/**/TABLE t]: the keyword DROP is a whole word
    of the statement (it is followed by a slash), the statement has no line
    comment and its only block comment is the empty one after the keyword, so
    the keyword stands outside every comment; removing the comment joins DROP
    to TABLE, the text that is matched is [DROPTABLE t], no pattern has a
    whole-word match in it and the validator returns normally, whereas it
    throws on the same statement written with a space. *)
Theorem validateReadOnly_keyword_joined_by_comment :
  let sql := lit "DROP/**/TABLE t" in
  testWord (map lit ["DROP"%string]) sql = true
  /\ scanGlobal matchLineComment 0 sql = map inl sql
  /\ scanGlobal matchBlockComment 0 sql
     = map inl (lit "DROP") ++ [inr tt] ++ map inl (lit "TABLE t")
  /\ cleaned sql = lit "DROPTABLE t"
  /\ validateReadOnly sql = Return tt
  /\ validateReadOnly (lit "DROP TABLE t")
     = Throw (forbiddenMessage (hd {| alternatives := [] |} forbidden)).
Proof. vm_compute. repeat split. Qed.

Lemma trimmedOf_semicolon (x : jsstring) (c : N) :
  removeFirst matchFinalSemicolon (x ++ [c])
  = if (c =? 59)%N then x else x ++ [c].
Proof.
  induction x as [|d x IH]; simpl.
  - destruct (c =? 59)%N; reflexivity.
  - destruct (x ++ [c]) as [|e y] eqn:E.
    + now destruct x.
    + rewrite IH. destruct (c =? 59)%N; reflexivity.
Qed.

Lemma last_split (s : jsstring) :
  s = [] \/ exists x c, s = x ++ [c] /\ rev s = c :: rev x.
Proof.
  destruct (rev s) as [|c r] eqn:E.
  - left. now rewrite <- (rev_involutive s), E.
  - right. exists (rev r), c. rewrite rev_involutive. split; [|reflexivity].
    now rewrite <- (rev_involutive s), E.
Qed.

(** The text left by the trimming does not start with white space. *)
Lemma trimmedOf_startsClean (sql : jsstring) :
  startsClean (trimmedOf sql) = true.
Proof.
  unfold trimmedOf. pose proof (trim_head sql) as H.
  destruct (last_split (trim sql)) as [E | (x & c & E & _)]; rewrite E in *.
  - reflexivity.
  - rewrite trimmedOf_semicolon.
    destruct x as [|d x]; simpl in *.
    + destruct (c =? 59)%N; simpl; [reflexivity | now rewrite H].
    + destruct (c =? 59)%N; simpl; now rewrite H.
Qed.

(** A text with clean ends is left as it is by the trimming. *)
Lemma trimmedOf_fixed (s : jsstring) :
  startsClean s = true -> endsClean s = true -> trimmedOf s = s.
Proof.
  unfold startsClean, endsClean, trimmedOf. intros Hs He.
  rewrite trim_fixed.
  - destruct (last_split s) as [-> | (x & c & -> & R)]; [reflexivity|].
    rewrite R in He. rewrite trimmedOf_semicolon.
    apply andb_true_iff in He as [_ He].
    now destruct (c =? 59)%N.
  - destruct s; [exact I | now apply negb_true_iff].
  - destruct (rev s); [exact I|].
    apply andb_true_iff in He as [He _]. now apply negb_true_iff.
Qed.

Lemma isSelect_nonempty (t : jsstring) :
  isSelect t = true -> startsClean t = true ->
  exists c r, t = c :: r /\ isWhiteSpace c = false.
Proof.
  unfold isSelect, startsClean. destruct t as [|c r]; simpl; [discriminate|].
  intros _ H. exists c, r. split; [reflexivity | now apply negb_true_iff].
Qed.

Lemma isSelect_app (t y : jsstring) :
  isSelect t = true -> startsClean t = true -> isSelect (t ++ y) = true.
Proof.
  intros H Hs. destruct (isSelect_nonempty t H Hs) as (c & r & -> & Hc).
  unfold isSelect in *. rewrite dropWhile_app_stop by assumption.
  rewrite dropWhile_stop in H by assumption.
  destruct (matchLiteralCI (lit "SELECT") (c :: r)) as [[m rest]|] eqn:M;
    [|discriminate].
  now rewrite (matchLiteralCI_app _ _ _ _ y M).
Qed.

Lemma hasLimit_appended (t x : jsstring) :
  hasLimit (t ++ lit " LIMIT " ++ x) = true.
Proof.
  unfold hasLimit, testWord, test. apply testFrom_iff.
  exists (t ++ [32%N]), (lit "LIMIT " ++ x). split.
  - now rewrite <- app_assoc.
  - rewrite lastOr_app. reflexivity.
Qed.

(** C2, as amended: the trimming removes the white space at both ends of the
    statement and then one final semicolon; a statement that begins with
    SELECT and has no LIMIT keyword gets [ LIMIT <limit>] appended to the
    trimmed text, every other statement is returned as the trimmed text.
    The limit is printed as a template literal prints a number: 100 as its
    digits, an integer above 2^53 as the environment's printer gives it. *)
Theorem ensureLimit_cases (other : number -> jsstring) (sql : jsstring) (limit : number) :
  let t := trimmedOf sql in
  (exists pre post,
      sql = pre ++ trim sql ++ post
      /\ Forall (fun c => isWhiteSpace c = true) pre
      /\ Forall (fun c => isWhiteSpace c = true) post
      /\ match trim sql with [] => True | c :: _ => isWhiteSpace c = false end
      /\ match rev (trim sql) with [] => True | c :: _ => isWhiteSpace c = false end)
  /\ (forall x, trim sql = x ++ [59%N] -> t = x)
  /\ ((forall x, trim sql <> x ++ [59%N]) -> t = trim sql)
  /\ (isSelect t = true -> hasLimit t = false ->
      ensureLimit other sql limit = t ++ lit " LIMIT " ++ numberToString other limit)
  /\ (hasLimit t = true -> ensureLimit other sql limit = t)
  /\ (isSelect t = false -> ensureLimit other sql limit = t)
  /\ ensureLimit other (lit "select * from t ; ") 100
     = lit "select * from t  LIMIT 100"
  /\ ensureLimit other (lit "SELECT 1") (inject_Z (2 ^ 69))
     = lit "SELECT 1 LIMIT " ++ other (inject_Z (2 ^ 69)).
Proof.
  intros t. split; [|split; [|split; [|split; [|split; [|split; [|split]]]]]];
    [| | | | | |vm_compute; reflexivity|vm_compute; reflexivity].
  - destruct (trim_split sql) as (pre & post & E & Hpre & Hpost).
    exists pre, post.
    split; [exact E|]. split; [exact Hpre|]. split; [exact Hpost|].
    split; [apply trim_head | apply trim_last].
  - intros x E. unfold t, trimmedOf. rewrite E, trimmedOf_semicolon. reflexivity.
  - intros H. unfold t, trimmedOf.
    destruct (last_split (trim sql)) as [-> | (x & c & E & _)]; [reflexivity|].
    rewrite E, trimmedOf_semicolon. destruct (c =? 59)%N eqn:C; [|reflexivity].
    apply N.eqb_eq in C. subst c. now elim (H x).
  - intros Hs Hl. unfold ensureLimit. fold t. now rewrite Hs, Hl.
  - intros Hl. unfold ensureLimit. fold t. rewrite Hl.
    now rewrite andb_false_r.
  - intros Hs. unfold ensureLimit. fold t. now rewrite Hs.
Qed.

(** C2, as stated, fails on a statement with white space in front: the white
    space is removed as well, for a SELECT and for any other statement. *)
Lemma ensureLimit_removes_leading_space :
  let other := fun _ : number => [] in
  ensureLimit other (lit "  VALUES (1)") 10 = lit "VALUES (1)"
  /\ ensureLimit_spec other (lit "  VALUES (1)") 10 = lit "  VALUES (1)"
  /\ ensureLimit other (lit "  SELECT 1") 10 = lit "SELECT 1 LIMIT 10"
  /\ ensureLimit_spec other (lit "  SELECT 1") 10 = lit "  SELECT 1 LIMIT 10"
  /\ ~ (forall sql limit,
           ensureLimit other sql limit = ensureLimit_spec other sql limit).
Proof.
  intros other.
  do 4 (split; [vm_compute; reflexivity|]).
  intros H. specialize (H (lit "  VALUES (1)") 10). vm_compute in H. discriminate.
Qed.

(** C9, as amended: applying [ensureLimit] again changes nothing whenever its
    first result ends neither with white space nor with a semicolon. *)
Theorem ensureLimit_idempotent_on_clean_end
        (other : number -> jsstring) (sql : jsstring) (limit : number) :
  endsClean (ensureLimit other sql limit) = true ->
  ensureLimit other (ensureLimit other sql limit) limit
  = ensureLimit other sql limit.
Proof.
  intros He. pose proof (trimmedOf_startsClean sql) as Hs.
  unfold ensureLimit at 2 3. unfold ensureLimit in He.
  destruct (isSelect (trimmedOf sql) && negb (hasLimit (trimmedOf sql))) eqn:C.
  - apply andb_true_iff in C as [Csel _].
    set (r := trimmedOf sql ++ lit " LIMIT " ++ numberToString other limit) in *.
    assert (Hr : startsClean r = true).
    { destruct (isSelect_nonempty _ Csel Hs) as (c & l & E & Hc).
      unfold r. rewrite E. simpl. now rewrite Hc. }
    unfold ensureLimit. rewrite (trimmedOf_fixed r Hr He).
    unfold r at 2. rewrite hasLimit_appended. now rewrite andb_false_r.
  - unfold ensureLimit. rewrite (trimmedOf_fixed _ Hs He). now rewrite C.
Qed.

Lemma ensureLimit_idempotent_on_clean_end_witness :
  endsClean (ensureLimit (fun _ => []) (lit " select id from t; ") 100) = true
  /\ ensureLimit (fun _ => [])
                 (ensureLimit (fun _ => []) (lit " select id from t; ") 100) 100
     = ensureLimit (fun _ => []) (lit " select id from t; ") 100.
Proof.
  split.
  - vm_compute. reflexivity.
  - apply (ensureLimit_idempotent_on_clean_end
             (fun _ => []) (lit " select id from t; ") 100).
    vm_compute. reflexivity.
Defined.

Lemma removeSemicolon_length (y : jsstring) :
  (List.length (removeFirst matchFinalSemicolon y) <= List.length y)%nat.
Proof.
  destruct (last_split y) as [-> | (x & c & -> & _)]; [simpl; lia|].
  rewrite trimmedOf_semicolon.
  destruct (c =? 59)%N; rewrite ?length_app; simpl; lia.
Qed.

Lemma trim_length (r : jsstring) :
  (List.length (trim r) <= List.length r)%nat
  /\ (List.length (trim r) = List.length r -> trim r = r).
Proof.
  destruct (trim_split r) as (pre & post & E & _ & _).
  assert (L : List.length r
              = (List.length pre + (List.length (trim r) + List.length post))%nat)
    by (rewrite E at 1; now rewrite !length_app).
  split; [lia|]. intros H.
  destruct pre; [|simpl in L; lia]. destruct post; [|simpl in L; lia].
  rewrite E at 2. simpl. now rewrite app_nil_r.
Qed.

(** Only a text with a clean end is left as it is by the trimming. *)
Lemma trimmedOf_fixed_inv (r : jsstring) :
  trimmedOf r = r -> endsClean r = true.
Proof.
  unfold trimmedOf. intros H.
  pose proof (removeSemicolon_length (trim r)) as L1.
  destruct (trim_length r) as [L2 L3].
  assert (E : trim r = r) by (apply L3; rewrite H in L1; lia).
  rewrite E in H. pose proof (trim_last r) as T. rewrite E in T.
  unfold endsClean.
  destruct (last_split r) as [-> | (x & c & -> & R)]; [reflexivity|].
  rewrite R in *. rewrite T. simpl.
  rewrite trimmedOf_semicolon in H. destruct (c =? 59)%N; [|reflexivity].
  apply (f_equal (@List.length N)) in H. rewrite length_app in H. simpl in H. lia.
Qed.

Lemma endsClean_app (a b : jsstring) :
  b <> [] -> endsClean (a ++ b) = endsClean b.
Proof.
  intros H. unfold endsClean. rewrite rev_app_distr.
  destruct (rev b) as [|c rb] eqn:E; [|reflexivity].
  elim H. now rewrite <- (rev_involutive b), E.
Qed.

(** The condition of the amended C9 is also necessary, for every limit whose
    printed form is not empty and has a clean end (as the decimal form of an
    integer has). *)
Lemma ensureLimit_idempotent_only_on_clean_end
      (other : number -> jsstring) (sql : jsstring) (limit : number) :
  numberToString other limit <> [] ->
  endsClean (numberToString other limit) = true ->
  ensureLimit other (ensureLimit other sql limit) limit
  = ensureLimit other sql limit ->
  endsClean (ensureLimit other sql limit) = true.
Proof.
  intros Hne Hclean. set (r := ensureLimit other sql limit).
  unfold ensureLimit at 1.
  destruct (isSelect (trimmedOf r) && negb (hasLimit (trimmedOf r))).
  - intros <-. rewrite app_assoc, endsClean_app; assumption.
  - apply trimmedOf_fixed_inv.
Qed.

(** C9, as stated, fails: a statement with a LIMIT and a space before its
    final semicolon keeps the space the first time and loses it the second
    time; two final semicolons are removed one per application. *)
Lemma ensureLimit_not_idempotent :
  let other := fun _ : number => [] in
  ensureLimit other (lit "SELECT 1 LIMIT 5 ;") 100 = lit "SELECT 1 LIMIT 5 "
  /\ ensureLimit other (ensureLimit other (lit "SELECT 1 LIMIT 5 ;") 100) 100
     = lit "SELECT 1 LIMIT 5"
  /\ ensureLimit other (lit "VALUES (1);;") 100 = lit "VALUES (1);"
  /\ ensureLimit other (ensureLimit other (lit "VALUES (1);;") 100) 100
     = lit "VALUES (1)"
  /\ ~ (forall sql limit,
           ensureLimit other (ensureLimit other sql limit) limit
           = ensureLimit other sql limit).
Proof.
  intros other.
  do 4 (split; [vm_compute; reflexivity|]).
  intros H. specialize (H (lit "SELECT 1 LIMIT 5 ;") 100).
  vm_compute in H. discriminate.
Qed.

End QueryFacts.

(** ** Plans *)

Module PlanFacts.
Import PlanTree.

(** Induction on a plan: the property holds at a node when it holds at the
    content of its envelope and at each of its children. *)
Lemma node_induction (P : node -> Prop) :
  (forall n,
      (forall p, Plan n = Some p -> P p) ->
      (forall l c, Plans n = Some l -> In c l -> P c) ->
      P n) ->
  forall n, P n.
Proof.
  intros H. fix IH 1. intros [ty rel fl rows cost sk plans plan].
  apply H; simpl.
  - destruct plan as [p|]; intros q E; [|discriminate].
    injection E as <-. apply IH.
  - destruct plans as [l|]; intros l' c E; [|discriminate].
    injection E as <-. induction l as [|d l IHl]; simpl.
    + intros [].
    + intros [<- | Hin]; [apply IH | now apply IHl].
Qed.

Lemma eqString_true (a b : jsstring) : eqString a b = true <-> a = b.
Proof.
  unfold eqString. destruct (list_eq_dec N.eq_dec a b); split; congruence.
Qed.

Lemma isString_exclusive (x : option jsstring) (a b : jsstring) :
  isString x a = true -> a <> b -> isString x b = false.
Proof.
  destruct x as [t|]; simpl; [|discriminate].
  intros Ha Hab. apply eqString_true in Ha. subst t.
  destruct (eqString a b) eqn:E; [|reflexivity].
  apply eqString_true in E. contradiction.
Qed.

Lemma flat_map_nested {A B C : Type} (f : B -> list C) (g : A -> list B)
      (l : list A) :
  flat_map f (flat_map g l) = flat_map (fun x => flat_map f (g x)) l.
Proof.
  induction l as [|x l IH]; simpl; [reflexivity|].
  now rewrite flat_map_app, IH.
Qed.

Lemma isString_of (t s : jsstring) : isString (Some t) s = true <-> t = s.
Proof. apply eqString_true. Qed.

Lemma gt_lt (a b : number) : gt a b = true <-> (b < a)%Q.
Proof.
  unfold gt. rewrite negb_true_iff. split.
  - intros H. apply Qnot_le_lt. intros L.
    apply Qle_bool_iff in L. congruence.
  - intros H. destruct (Qle_bool a b) eqn:E; [|reflexivity].
    apply Qle_bool_iff in E. exfalso. exact (Qlt_not_le _ _ H E).
Qed.

Lemma gt_le (a b : number) : gt a b = false <-> (a <= b)%Q.
Proof.
  unfold gt. rewrite negb_false_iff. apply Qle_bool_iff.
Qed.

End PlanFacts.

(** ** The plan warning analyzer *)

Module WarningFacts.
Import JSFacts PlanTree PlanFacts Warnings.

Section WithNumbers.
Variable other : number -> jsstring.

Lemma extractWarnings_unfold (plan : node) (acc : list jsstring) :
  extractWarnings other plan acc
  = fold_left (fun w child => extractWarnings other child w)
              (children (unwrap plan))
              (warnNode other (unwrap plan) acc).
Proof.
  destruct plan as [ty rel fl rows cost sk plans plan].
  unfold unwrap, children, orElse. simpl.
  destruct plan as [p|]; simpl.
  - destruct (Plans p); reflexivity.
  - destruct plans; reflexivity.
Qed.

Lemma preorder_unfold (plan : node) :
  preorder plan = unwrap plan :: flat_map preorder (children (unwrap plan)).
Proof.
  destruct plan as [ty rel fl rows cost sk plans plan].
  unfold unwrap, children, orElse. simpl.
  destruct plan as [p|]; simpl.
  - destruct (Plans p); reflexivity.
  - destruct plans; reflexivity.
Qed.

(** The three rules in sequence add what the rule table says: the node
    types of the rules exclude one another. *)
Lemma warnNode_rules (n : node) (acc : list jsstring) :
  warnNode other n acc = acc ++ nodeWarnings other n.
Proof.
  unfold warnNode, nodeWarnings.
  destruct (isString (NodeType n) (lit "Seq Scan")) eqn:Eseq.
  - rewrite (isString_exclusive _ _ (lit "Nested Loop") Eseq) by discriminate.
    rewrite (isString_exclusive _ _ (lit "Sort") Eseq) by discriminate.
    rewrite (isString_exclusive _ _ (lit "Hash") Eseq) by discriminate.
    simpl orb. cbv iota.
    destruct (gt (orElse (PlanRows n) 0) 10000);
      [reflexivity | now rewrite app_nil_r].
  - destruct (isString (NodeType n) (lit "Nested Loop")) eqn:Enl.
    + rewrite (isString_exclusive _ _ (lit "Sort") Enl) by discriminate.
      rewrite (isString_exclusive _ _ (lit "Hash") Enl) by discriminate.
      simpl orb. cbv iota.
      destruct (gt (orElse (PlanRows n) 0) 50000);
        [reflexivity | now rewrite app_nil_r].
    + destruct (isString (NodeType n) (lit "Sort")
                || isString (NodeType n) (lit "Hash")).
      * destruct (gt (orElse (TotalCost n) 0) 10000);
          [reflexivity | now rewrite app_nil_r].
      * now rewrite app_nil_r.
Qed.

Lemma fold_children (W : node -> list jsstring) (l : list node) :
  (forall c, In c l ->
             forall acc, extractWarnings other c acc = acc ++ W c) ->
  forall acc,
    fold_left (fun w child => extractWarnings other child w) l acc
    = acc ++ flat_map W l.
Proof.
  induction l as [|c l IH]; intros H acc; simpl.
  - now rewrite app_nil_r.
  - rewrite (H c (or_introl eq_refl)).
    rewrite IH by (intros d Hd; apply H; now right).
    now rewrite <- app_assoc.
Qed.

Lemma extractWarnings_walk (plan : node) (acc : list jsstring) :
  extractWarnings other plan acc
  = acc ++ flat_map (nodeWarnings other) (preorder plan).
Proof.
  set (W := fun c => flat_map (nodeWarnings other) (preorder c)).
  set (Q := fun c => forall acc, extractWarnings other c acc = acc ++ W c).
  assert (H : forall n, Q n /\ forall c, In c (children n) -> Q c).
  { induction n as [n IHenv IHkids] using node_induction.
    assert (Hkids : forall c, In c (children n) -> Q c).
    { intros c Hc. unfold children in Hc.
      destruct (Plans n) as [l|] eqn:E; [|destruct Hc].
      exact (proj1 (IHkids l c eq_refl Hc)). }
    split; [|exact Hkids].
    assert (Hun : forall c, In c (children (unwrap n)) -> Q c).
    { unfold unwrap. destruct (Plan n) as [p|] eqn:E; simpl.
      - exact (proj2 (IHenv p eq_refl)).
      - exact Hkids. }
    intros a. rewrite extractWarnings_unfold, warnNode_rules.
    rewrite (fold_children W _ Hun).
    unfold W at 2. rewrite preorder_unfold. simpl.
    rewrite flat_map_nested. now rewrite <- app_assoc. }
  exact (proj1 (H plan) acc).
Qed.


(** C3: the walk visits the nodes in depth-first pre-order, children
    included whatever the node itself gave, and the warnings are, in that
    order, those of the rule table, each with its text: a sequential scan
    above 10,000 rows is reported with its relation and its rows, a nested
    loop above 50,000 rows with its rows, a sort or a hash above a cost of
    10,000 with its node type and its cost; each bound is strict. *)
Theorem extractWarnings_rule_table :
  (forall plan acc,
      extractWarnings other plan acc
      = acc ++ flat_map (nodeWarnings other) (preorder plan))
  /\ (forall n, NodeType n = Some (lit "Seq Scan") ->
        let rows := orElse (PlanRows n) 0 in
        ((10000 < rows)%Q ->
         nodeWarnings other n
         = [lit "Sequential scan on " ++ quote
            ++ orElse (RelationName n) (lit "undefined") ++ quote
            ++ lit " with ~" ++ numberToString other rows
            ++ lit " estimated rows. Consider adding an index."])
        /\ ((rows <= 10000)%Q -> nodeWarnings other n = []))
  /\ (forall n, NodeType n = Some (lit "Nested Loop") ->
        let rows := orElse (PlanRows n) 0 in
        ((50000 < rows)%Q ->
         nodeWarnings other n
         = [lit "Nested Loop join producing ~" ++ numberToString other rows
            ++ lit " rows. This may be slow " ++ [8211%N]
            ++ lit " consider restructuring the query or adding indexes."])
        /\ ((rows <= 50000)%Q -> nodeWarnings other n = []))
  /\ (forall n, NodeType n = Some (lit "Sort") ->
        let cost := orElse (TotalCost n) 0 in
        ((10000 < cost)%Q ->
         nodeWarnings other n
         = [lit "High-cost Sort operation (cost: " ++ numberToString other cost
            ++ lit "). May benefit from more work_mem or query restructuring."])
        /\ ((cost <= 10000)%Q -> nodeWarnings other n = []))
  /\ (forall n, NodeType n = Some (lit "Hash") ->
        let cost := orElse (TotalCost n) 0 in
        ((10000 < cost)%Q ->
         nodeWarnings other n
         = [lit "High-cost Hash operation (cost: " ++ numberToString other cost
            ++ lit "). May benefit from more work_mem or query restructuring."])
        /\ ((cost <= 10000)%Q -> nodeWarnings other n = []))
  /\ (forall n,
        isString (NodeType n) (lit "Seq Scan") = false ->
        isString (NodeType n) (lit "Nested Loop") = false ->
        isString (NodeType n) (lit "Sort") = false ->
        isString (NodeType n) (lit "Hash") = false ->
        nodeWarnings other n = [])
  /\ (forall rel cost,
        extractWarnings other (leaf (lit "Seq Scan") rel 10000 cost) [] = [])
  /\ (forall rel cost,
        extractWarnings other (leaf (lit "Seq Scan") rel 10001 cost) []
        = [lit "Sequential scan on " ++ quote ++ rel ++ quote
           ++ lit " with ~10001 estimated rows. Consider adding an index."])
  /\ (forall rel cost,
        extractWarnings other (leaf (lit "Nested Loop") rel 50000 cost) [] = []
        /\ extractWarnings other (leaf (lit "Nested Loop") rel 50001 cost) []
           = [lit "Nested Loop join producing ~50001 rows. This may be slow "
              ++ [8211%N]
              ++ lit " consider restructuring the query or adding indexes."])
  /\ (forall rel rows,
        extractWarnings other (leaf (lit "Sort") rel rows 10000) [] = []
        /\ extractWarnings other (leaf (lit "Hash") rel rows 10000) [] = []
        /\ extractWarnings other (leaf (lit "Sort") rel rows 10001) []
           = [lit "High-cost Sort operation (cost: 10001). "
              ++ lit "May benefit from more work_mem or query restructuring."]
        /\ extractWarnings other (leaf (lit "Hash") rel rows 10001) []
           = [lit "High-cost Hash operation (cost: 10001). "
              ++ lit "May benefit from more work_mem or query restructuring."])
  /\ (forall cost,
        extractWarnings other
          (Node None None None None None None None
             (Some (Node (Some (lit "Seq Scan")) (Some (lit "orders"))
                         (Some (lit "(status = 'active')")) (Some 15000)
                         (Some cost) None None None))) []
        = [lit "Sequential scan on " ++ quote ++ lit "orders" ++ quote
           ++ lit " with ~15000 estimated rows. Consider adding an index."])
  /\ (let scan := leaf (lit "Seq Scan") (lit "orders") 20000 300 in
      let hash := Node (Some (lit "Hash")) None None (Some 10) (Some 20000)
                       None (Some [scan]) None in
      let quiet := Node (Some (lit "Limit")) None None (Some 10) (Some 1)
                        None (Some [hash]) None in
      let sort := leaf (lit "Sort") (lit "items") 10 30000 in
      let join := Node (Some (lit "Nested Loop")) None None (Some 60000)
                       (Some 1) None (Some [quiet; sort]) None in
      extractWarnings other join []
      = [lit "Nested Loop join producing ~60000 rows. This may be slow "
         ++ [8211%N]
         ++ lit " consider restructuring the query or adding indexes.";
         lit "High-cost Hash operation (cost: 20000). "
         ++ lit "May benefit from more work_mem or query restructuring.";
         lit "Sequential scan on " ++ quote ++ lit "orders" ++ quote
         ++ lit " with ~20000 estimated rows. Consider adding an index.";
         lit "High-cost Sort operation (cost: 30000). "
         ++ lit "May benefit from more work_mem or query restructuring."]).
Proof.
  split; [exact extractWarnings_walk|].
  split; [|split; [|split; [|split; [|split; [|split; [|split;
    [|split; [|split; [|split]]]]]]]]].
  - intros n Ht rows. unfold nodeWarnings. fold rows. rewrite Ht.
    rewrite (proj2 (isString_of _ _) eq_refl). split; intros H.
    + now rewrite (proj2 (gt_lt _ _) H).
    + now rewrite (proj2 (gt_le _ _) H).
  - intros n Ht rows. unfold nodeWarnings. fold rows. rewrite Ht.
    rewrite (isString_exclusive _ (lit "Nested Loop") (lit "Seq Scan"))
      by (try discriminate; now apply isString_of).
    rewrite (proj2 (isString_of _ _) eq_refl). split; intros H.
    + now rewrite (proj2 (gt_lt _ _) H).
    + now rewrite (proj2 (gt_le _ _) H).
  - intros n Ht cost. unfold nodeWarnings. fold cost. rewrite Ht.
    rewrite (isString_exclusive _ (lit "Sort") (lit "Seq Scan"))
      by (try discriminate; now apply isString_of).
    rewrite (isString_exclusive _ (lit "Sort") (lit "Nested Loop"))
      by (try discriminate; now apply isString_of).
    rewrite (proj2 (isString_of _ _) eq_refl). simpl orb. cbv iota.
    split; intros H.
    + now rewrite (proj2 (gt_lt _ _) H).
    + now rewrite (proj2 (gt_le _ _) H).
  - intros n Ht cost. unfold nodeWarnings. fold cost. rewrite Ht.
    rewrite (isString_exclusive _ (lit "Hash") (lit "Seq Scan"))
      by (try discriminate; now apply isString_of).
    rewrite (isString_exclusive _ (lit "Hash") (lit "Nested Loop"))
      by (try discriminate; now apply isString_of).
    rewrite (isString_exclusive _ (lit "Hash") (lit "Sort"))
      by (try discriminate; now apply isString_of).
    rewrite (proj2 (isString_of _ _) eq_refl). simpl orb. cbv iota.
    split; intros H.
    + now rewrite (proj2 (gt_lt _ _) H).
    + now rewrite (proj2 (gt_le _ _) H).
  - intros n H1 H2 H3 H4. unfold nodeWarnings.
    now rewrite H1, H2, H3, H4.
  - intros rel cost. vm_compute. reflexivity.
  - intros rel cost. vm_compute. reflexivity.
  - intros rel cost. split; vm_compute; reflexivity.
  - intros rel rows.
    do 3 (split; [vm_compute; reflexivity|]). vm_compute. reflexivity.
  - intros cost. vm_compute. reflexivity.
  - vm_compute. reflexivity.
Qed.
End WithNumbers.
End WarningFacts.

(** ** The index suggestion engine *)

Module OptimizationFacts.
Import JSFacts PlanTree PlanFacts Optimization.

(** *** The columns of a filter *)

Lemma matchColumn_capture (s col : jsstring) (len : nat) :
  matchColumn s = Some (col, len) -> col <> [].
Proof.
  unfold matchColumn. destruct s as [|c r]; [discriminate|].
  destruct (c =? 40)%N; [|discriminate].
  destruct (takeWhile isWordChar r) as [|w ws]; [discriminate|].
  destruct (takeWhile isComparisonChar _); [discriminate|].
  intros [= <- _]. discriminate.
Qed.

Lemma scanGlobal_matchColumn_nonempty (s : jsstring) (skip : nat) :
  Forall (fun col => col <> []) (captures (scanGlobal matchColumn skip s)).
Proof. apply captures_all, matchColumn_capture. Qed.

Lemma includes_In (l : list jsstring) (x : jsstring) :
  includes l x = true <-> In x l.
Proof.
  unfold includes. rewrite existsb_exists. split.
  - intros (y & Hy & E). destruct (list_eq_dec N.eq_dec y x); [now subst | discriminate].
  - intros H. exists x. split; [exact H|].
    now destruct (list_eq_dec N.eq_dec x x).
Qed.

Lemma includes_app (l : list jsstring) (x y : jsstring) :
  includes (l ++ [x]) y = includes l y || eqString x y.
Proof.
  unfold includes. rewrite existsb_app. simpl. now rewrite orb_false_r.
Qed.

Lemma filter_filter {A : Type} (f g : A -> bool) (l : list A) :
  filter f (filter g l) = filter (fun x => g x && f x) l.
Proof.
  induction l as [|x l IH]; simpl; [reflexivity|].
  destruct (g x); simpl; [destruct (f x)|]; now rewrite IH.
Qed.

(** The loop of [extractColumnsFromFilter] keeps each capture once, where it
    is first seen. *)
Lemma pushColumn_firstSeen (l acc : list jsstring) :
  Forall (fun col => col <> []) l ->
  fold_left pushColumn l acc
  = acc ++ filter (fun y => negb (includes acc y)) (firstSeen l).
Proof.
  intros H; revert acc; induction H as [|x l Hx Hl IH]; intros acc; simpl.
  - now rewrite app_nil_r.
  - unfold pushColumn at 2. destruct x as [|c x]; [contradiction|].
    set (col := c :: x) in *.
    destruct (includes acc col) eqn:E; simpl.
    + rewrite IH, filter_filter. f_equal. apply filter_ext. intros y.
      destruct (eqString y col) eqn:Ey; simpl; [|reflexivity].
      apply eqString_true in Ey. subst y. now rewrite E.
    + rewrite IH, <- app_assoc, filter_filter. simpl. do 2 f_equal.
      apply filter_ext. intros y. rewrite includes_app, negb_orb, andb_comm.
      f_equal. f_equal. unfold eqString.
      destruct (list_eq_dec N.eq_dec col y), (list_eq_dec N.eq_dec y col);
        congruence.
Qed.

Lemma extractColumnsFromFilter_firstSeen (filter : jsstring) :
  extractColumnsFromFilter filter = firstSeen (execAll matchColumn filter).
Proof.
  unfold extractColumnsFromFilter, execAll.
  rewrite pushColumn_firstSeen by apply scanGlobal_matchColumn_nonempty.
  simpl. induction (firstSeen _) as [|y l IH]; simpl; [reflexivity|].
  now rewrite IH.
Qed.

(** *** The column of a sort key *)

Lemma removeFirst_some (m : jsstring -> option nat) (s : jsstring) (len : nat) :
  m s = Some len -> removeFirst m s = skipn len s.
Proof. intros H. destruct s; simpl; now rewrite H. Qed.

Lemma removeFirst_none (m : jsstring -> option nat) (c : N) (r : jsstring) :
  m (c :: r) = None -> removeFirst m (c :: r) = c :: removeFirst m r.
Proof. intros H. simpl. now rewrite H. Qed.

Lemma lastDot_none (t : jsstring) : Forall noDot t -> lastDot t = None.
Proof.
  induction 1 as [|c t Hc Ht IH]; simpl; [reflexivity|].
  now rewrite IH, Hc.
Qed.

Lemma lastDot_last (q t : jsstring) :
  Forall noDot t -> lastDot (q ++ 46%N :: t) = Some (List.length q).
Proof.
  intros Ht. induction q as [|c q IH]; simpl.
  - now rewrite (lastDot_none t Ht).
  - fold (q ++ 46%N :: t). now rewrite IH.
Qed.

Lemma takeWhile_whole (f : N -> bool) (s : jsstring) :
  Forall (fun c => f c = true) s -> takeWhile f s = s.
Proof.
  induction 1 as [|c s Hc Hs IH]; simpl; [reflexivity|].
  now rewrite Hc, IH.
Qed.

Lemma takeWhile_noDot (f : N -> bool) (s : jsstring) :
  Forall noDot s -> Forall noDot (takeWhile f s).
Proof.
  induction 1 as [|c s Hc Hs IH]; simpl; [constructor|].
  destruct (f c); now constructor.
Qed.

Lemma skipn_length_app (q t : jsstring) : skipn (List.length q) (q ++ t) = t.
Proof. induction q as [|c q IH]; simpl; auto. Qed.

(** The qualifier: everything up to the last full stop is removed. *)
Lemma removeQualifier_qualified (q t : jsstring) :
  Forall noBreak q -> Forall noBreak t -> Forall noDot t ->
  removeFirst matchQualifier (q ++ 46%N :: t) = t.
Proof.
  intros Hq Ht Hd.
  assert (Hall : Forall (fun c => negb (isLineTerminator c) = true) (q ++ 46%N :: t)).
  { apply Forall_app. split.
    - eapply Forall_impl; [|exact Hq]. intros c Hc. unfold noBreak in Hc. now rewrite Hc.
    - constructor; [reflexivity|].
      eapply Forall_impl; [|exact Ht]. intros c Hc. unfold noBreak in Hc. now rewrite Hc. }
  rewrite (removeFirst_some _ _ (S (List.length q))).
  - change (46%N :: t) with ([46%N] ++ t). rewrite app_assoc.
    replace (S (List.length q)) with (List.length (q ++ [46%N]))
      by (rewrite length_app; simpl; lia).
    apply skipn_length_app.
  - unfold matchQualifier. rewrite (takeWhile_whole _ _ Hall).
    now rewrite (lastDot_last q t Hd).
Qed.

Lemma removeQualifier_unqualified (t : jsstring) :
  Forall noDot t -> removeFirst matchQualifier t = t.
Proof.
  induction 1 as [|c t Hc Ht IH]; [reflexivity|].
  rewrite removeFirst_none; [now rewrite IH|].
  unfold matchQualifier. rewrite lastDot_none; [reflexivity|].
  apply takeWhile_noDot. now constructor.
Qed.

Lemma wordChar_not_space (c : N) : isWordChar c = true -> eqCI 32 c = false.
Proof.
  intros H. unfold eqCI, canonicalize.
  change (inRange 97 122 32) with false. cbv iota.
  destruct (inRange 97 122 c) eqn:E; apply N.eqb_neq.
  - unfold inRange in E. apply andb_true_iff in E as [A B].
    apply N.leb_le in A, B. lia.
  - intros <-. discriminate.
Qed.

Lemma wordChar_noDot (c : N) : isWordChar c = true -> noDot c.
Proof.
  unfold noDot. intros H. destruct (c =? 46)%N eqn:E; [|reflexivity].
  apply N.eqb_eq in E. subst c. discriminate.
Qed.

Lemma wordChar_noBreak (c : N) : isWordChar c = true -> noBreak c.
Proof.
  unfold noBreak, isLineTerminator. intros H.
  destruct (c =? 10)%N eqn:E1; [apply N.eqb_eq in E1; subst c; discriminate|].
  destruct (c =? 13)%N eqn:E2; [apply N.eqb_eq in E2; subst c; discriminate|].
  destruct (c =? 8232)%N eqn:E3; [apply N.eqb_eq in E3; subst c; discriminate|].
  destruct (c =? 8233)%N eqn:E4; [apply N.eqb_eq in E4; subst c; discriminate|].
  reflexivity.
Qed.

Lemma removeDirection_marker (d : jsstring) :
  isDirection d -> removeFirst matchDirection d = [].
Proof.
  intros [-> | [H | H]]; [reflexivity | |].
  - pose proof (Forall2_length H) as L.
    rewrite (removeFirst_some _ _ 4).
    + apply skipn_all2. rewrite <- L. vm_compute. lia.
    + unfold matchDirection.
      rewrite <- (app_nil_r d) at 1. now rewrite (matchLiteralCI_complete _ _ [] H).
  - pose proof (Forall2_length H) as L.
    rewrite (removeFirst_some _ _ 5).
    + apply skipn_all2. rewrite <- L. vm_compute. lia.
    + unfold matchDirection.
      assert (E : matchLiteralCI (lit " ASC") d = None).
      { destruct (matchLiteralCI (lit " ASC") d) as [[m rest]|] eqn:M; [|reflexivity].
        apply matchLiteralCI_sound in M as [-> F].
        pose proof (Forall2_length F) as L'.
        change (lit " DESC") with (32 :: 68 :: lit "ESC")%N in H.
        change (lit " ASC") with (32 :: 65 :: lit "SC")%N in F.
        destruct m as [|a [|b m]]; try (inversion F; fail).
        - inversion F as [|? ? ? ? _ F']. inversion F'.
        - simpl in H. inversion H as [|? ? ? ? _ H1]. subst.
          inversion H1 as [|? ? ? ? Hb _]. subst.
          inversion F as [|? ? ? ? _ F1]. subst.
          inversion F1 as [|? ? ? ? Hb' _]. subst.
          unfold eqCI in Hb, Hb'. apply N.eqb_eq in Hb, Hb'.
          rewrite <- Hb' in Hb. discriminate. }
      rewrite E.
      rewrite <- (app_nil_r d) at 1. now rewrite (matchLiteralCI_complete _ _ [] H).
Qed.

Lemma removeDirection_identifier (c d : jsstring) :
  Forall (fun x => isWordChar x = true) c -> isDirection d ->
  removeFirst matchDirection (c ++ d) = c.
Proof.
  intros Hc Hd. induction Hc as [|x c Hx Hc IH]; simpl app.
  - now apply removeDirection_marker.
  - rewrite removeFirst_none; [now rewrite IH|].
    unfold matchDirection.
    change (lit " ASC") with (32 :: lit "ASC")%N.
    change (lit " DESC") with (32 :: lit "DESC")%N.
    simpl. now rewrite (wordChar_not_space x Hx).
Qed.

Lemma isDirection_plain (d : jsstring) :
  isDirection d -> Forall noDot d /\ Forall noBreak d.
Proof.
  assert (G : forall pat, Forall (fun p => inRange 65 90 p = true \/ p = 32%N) pat ->
              forall d, Forall2 (fun p c => eqCI p c = true) pat d ->
                        Forall noDot d /\ Forall noBreak d).
  { intros pat Hp. induction Hp as [|p pat Hp _ IH]; intros d' F;
      inversion F as [|? c ? d'' Hpc F']; subst; [split; constructor|].
    destruct (IH _ F') as [I1 I2].
    assert (Hc : noDot c /\ noBreak c).
    { unfold eqCI, canonicalize in Hpc. apply N.eqb_eq in Hpc.
      unfold noDot, noBreak, isLineTerminator.
      destruct Hp as [Hp | ->].
      - unfold inRange in *. apply andb_true_iff in Hp as [P1 P2].
        apply N.leb_le in P1, P2.
        destruct ((97 <=? p)%N && (p <=? 122)%N) eqn:Ep.
        { apply andb_true_iff in Ep as [Q1 _]. apply N.leb_le in Q1. lia. }
        destruct ((97 <=? c)%N && (c <=? 122)%N) eqn:Ec.
        + apply andb_true_iff in Ec as [Q1 Q2]. apply N.leb_le in Q1, Q2.
          split; repeat (apply orb_false_iff; split); apply N.eqb_neq; lia.
        + subst c.
          split; repeat (apply orb_false_iff; split); apply N.eqb_neq; lia.
      - simpl in Hpc.
        destruct (inRange 97 122 c) eqn:Ec.
        + unfold inRange in Ec. apply andb_true_iff in Ec as [Q1 Q2].
          apply N.leb_le in Q1, Q2. lia.
        + subst c. split; reflexivity. }
    split; constructor; tauto. }
  intros [-> | [H | H]]; [split; constructor | |];
    (eapply G; [|exact H]);
    match goal with |- Forall _ ?l => let v := eval vm_compute in l in change l with v end;
    repeat (constructor; [first [left; reflexivity | right; reflexivity]|]);
    constructor.
Qed.

(** *** The traversal *)

Lemma descendants_unfold (n : node) :
  descendants n = n :: flat_map descendants (children n).
Proof. destruct n as [ty rel fl rows cost sk [l|] pl]; reflexivity. Qed.

Lemma fold_left_ext_in {A B : Type} (f g : A -> B -> A) (l : list B) :
  (forall b, In b l -> forall a, f a b = g a b) ->
  forall a, fold_left f l a = fold_left g l a.
Proof.
  induction l as [|b l IH]; intros H a; simpl; [reflexivity|].
  rewrite (H b (or_introl eq_refl)). apply IH.
  intros c Hc. apply H. now right.
Qed.

Lemma fold_left_flat_map {A B : Type} (f : list A -> B -> list A)
      (W : B -> list A) (l : list B) :
  (forall b, In b l -> forall a, f a b = a ++ W b) ->
  forall a, fold_left f l a = a ++ flat_map W l.
Proof.
  induction l as [|b l IH]; intros H a; simpl.
  - now rewrite app_nil_r.
  - rewrite (H b (or_introl eq_refl)).
    rewrite IH by (intros c Hc; apply H; now right).
    now rewrite <- app_assoc.
Qed.

Section WithNumbers.
Variable other : number -> jsstring.

Lemma analyzePlanNode_unfold (n : node) (schema : jsstring)
      (acc : list IndexSuggestion) :
  analyzePlanNode other n schema acc
  = fold_left (fun a child => analyzePlanNode other child schema a)
              (children n) (suggestNode other n schema acc).
Proof. destruct n as [ty rel fl rows cost sk [l|] pl]; reflexivity. Qed.

Lemma analyzePlanNode_unwrapping_unfold (n : node) (schema : jsstring)
      (acc : list IndexSuggestion) :
  analyzePlanNode_unwrapping other n schema acc
  = fold_left (fun a child => analyzePlanNode_unwrapping other child schema a)
              (children (unwrap n)) (suggestNode other (unwrap n) schema acc).
Proof.
  destruct n as [ty rel fl rows cost sk plans [p|]];
    unfold unwrap, children, orElse; simpl.
  - destruct (Plans p); reflexivity.
  - destruct plans; reflexivity.
Qed.

(** What a node adds does not depend on what was collected before. *)
Lemma suggestNode_acc (n : node) (schema : jsstring) (acc : list IndexSuggestion) :
  suggestNode other n schema acc = acc ++ suggestNode other n schema [].
Proof.
  unfold suggestNode.
  destruct (isString (NodeType n) (lit "Seq Scan") && isTruthy (Filter n)
            && gt (orElse (PlanRows n) 0) 1000);
    [destruct (extractColumnsFromFilter (orElse (Filter n) []))|];
    (destruct (isString (NodeType n) (lit "Sort"));
     [destruct (SortKey n) as [keys|];
      [destruct (map sortColumn keys);
       [|destruct (gt (orElse (PlanRows n) 0) 5000)]|]|]);
    simpl; rewrite ?app_nil_r, <- ?app_assoc; reflexivity.
Qed.

Lemma analyzePlanNode_walk (n : node) (schema : jsstring)
      (acc : list IndexSuggestion) :
  analyzePlanNode other n schema acc
  = acc ++ flat_map (fun d => suggestNode other d schema []) (descendants n).
Proof.
  revert acc. induction n as [n _ IH] using node_induction. intros acc.
  rewrite analyzePlanNode_unfold, descendants_unfold. simpl.
  rewrite flat_map_nested, suggestNode_acc, app_assoc.
  apply fold_left_flat_map.
  intros c Hc a. unfold children in Hc.
  destruct (Plans n) as [l|] eqn:E; [|destruct Hc].
  exact (IH l c eq_refl Hc a).
Qed.

Lemma noEnvelope_children (n c : node) :
  noEnvelope n = true -> In c (children n) -> noEnvelope c = true.
Proof.
  destruct n as [ty rel fl rows cost sk plans [p|]]; simpl; [discriminate|].
  unfold children; simpl. destruct plans as [l|]; simpl; [|intros _ []].
  intros H Hc. exact (proj1 (forallb_forall _ _) H c Hc).
Qed.

Lemma noEnvelope_unwrap (n : node) : noEnvelope n = true -> unwrap n = n.
Proof.
  destruct n as [ty rel fl rows cost sk plans [p|]]; simpl;
    [discriminate | reflexivity].
Qed.

(** On a plan without envelopes the two traversals agree. *)
Lemma analyzePlanNode_noEnvelope (n : node) (schema : jsstring) :
  noEnvelope n = true ->
  forall acc,
    analyzePlanNode other n schema acc
    = analyzePlanNode_unwrapping other n schema acc.
Proof.
  induction n as [n _ IH] using node_induction. intros Hn acc.
  rewrite analyzePlanNode_unfold, analyzePlanNode_unwrapping_unfold.
  rewrite (noEnvelope_unwrap n Hn).
  apply fold_left_ext_in. intros c Hc a.
  pose proof (noEnvelope_children n c Hn Hc) as Hcn.
  unfold children in Hc.
  destruct (Plans n) as [l|] eqn:E; [|destruct Hc].
  exact (IH l c eq_refl Hc Hcn a).
Qed.

Lemma flat_map_ext_on {A B : Type} (f g : A -> list B) (l : list A) :
  (forall a, In a l -> f a = g a) -> flat_map f l = flat_map g l.
Proof.
  induction l as [|a l IH]; intros H; simpl; [reflexivity|].
  rewrite (H a (or_introl eq_refl)), IH; [reflexivity|].
  intros c Hc. apply H. now right.
Qed.

(** On a plan without envelopes, the nodes the index walk reads are the nodes
    the warning walk reads. *)
Lemma descendants_preorder (n : node) :
  noEnvelope n = true -> descendants n = Warnings.preorder n.
Proof.
  induction n as [n _ IH] using node_induction. intros Hn.
  rewrite descendants_unfold, WarningFacts.preorder_unfold.
  rewrite (noEnvelope_unwrap n Hn). f_equal.
  apply flat_map_ext_on. intros c Hc.
  pose proof (noEnvelope_children n c Hn Hc) as Hcn.
  unfold children in Hc.
  destruct (Plans n) as [l|] eqn:E; [|destruct Hc].
  exact (IH l c eq_refl Hc Hcn).
Qed.

Lemma descendants_preorder_root (plan : node) :
  noEnvelope (unwrap plan) = true ->
  descendants (unwrap plan) = Warnings.preorder plan.
Proof.
  intros H. rewrite (descendants_preorder _ H).
  rewrite (WarningFacts.preorder_unfold plan).
  rewrite (WarningFacts.preorder_unfold (unwrap plan)).
  now rewrite (noEnvelope_unwrap _ H).
Qed.

(** C4, as amended: the suggestions of [suggestIndexes] are those of the
    nodes its walk reaches, in pre-order: the root after one envelope is
    unwrapped and the nodes of the [Plans] arrays below it, read as they are;
    on a plan without an envelope below the root these are all the nodes of
    the plan.  Each such node that is a sequential scan with a filter and
    more than 1000 estimated rows gives one suggestion when the pattern
    captures a column of the filter: its columns are the identifiers captured
    by the pattern in the filter, each once in the order first seen; its
    impact is high above 100,000 rows, medium above 10,000 and low otherwise;
    its statement is CREATE INDEX idx_<table>_<columns> ON <schema>.<table>
    (<columns>); and nothing is suggested when no column is captured. *)
Theorem suggestIndexes_seq_scan_rule :
  (forall plan schema,
      suggestIndexes other plan schema
      = flat_map (fun d => suggestNode other d schema [])
                 (descendants (unwrap plan)))
  /\ (forall plan,
        noEnvelope (unwrap plan) = true ->
        descendants (unwrap plan) = Warnings.preorder plan)
  /\ (forall n schema acc,
        analyzePlanNode other n schema acc
        = acc ++ flat_map (fun d => suggestNode other d schema []) (descendants n))
  /\ (forall n schema filter,
        NodeType n = Some (lit "Seq Scan") ->
        Filter n = Some filter ->
        (1000 < orElse (PlanRows n) 0)%Q ->
        let rows := orElse (PlanRows n) 0 in
        let cols := firstSeen (execAll matchColumn filter) in
        let tbl := template (RelationName n) in
        (cols = [] -> suggestNode other n schema [] = [])
        /\ (cols <> [] ->
            exists s,
              suggestNode other n schema [] = [s]
              /\ table s = RelationName n
              /\ columns s = cols
              /\ ((100000 < rows)%Q -> impactOf s = high)
              /\ ((rows <= 100000)%Q -> (10000 < rows)%Q -> impactOf s = medium)
              /\ ((rows <= 10000)%Q -> impactOf s = low)
              /\ createStatement s
                 = lit "CREATE INDEX idx_" ++ tbl ++ lit "_" ++ join (lit "_") cols
                   ++ lit " ON " ++ schema ++ lit "." ++ tbl
                   ++ lit " (" ++ join (lit ", ") cols ++ lit ");"))
  /\ (forall plan schema n filter,
        In n (descendants (unwrap plan)) ->
        NodeType n = Some (lit "Seq Scan") ->
        Filter n = Some filter ->
        (1000 < orElse (PlanRows n) 0)%Q ->
        firstSeen (execAll matchColumn filter) <> [] ->
        exists s,
          suggestNode other n schema [] = [s]
          /\ In s (suggestIndexes other plan schema))
  /\ (exists s,
        suggestIndexes other
          (envelope (Node (Some (lit "Seq Scan")) (Some (lit "orders"))
                          (Some (lit "(user_id = 5)")) (Some 2000) None
                          None None None))
          (lit "public") = [s]
        /\ columns s = [lit "user_id"]
        /\ impactOf s = low
        /\ createStatement s
           = lit "CREATE INDEX idx_orders_user_id ON public.orders (user_id);").
Proof.
  assert (Walk : forall plan schema,
             suggestIndexes other plan schema
             = flat_map (fun d => suggestNode other d schema [])
                        (descendants (unwrap plan))).
  { intros plan schema. unfold suggestIndexes. fold (unwrap plan).
    now rewrite analyzePlanNode_walk. }
  assert (Rule : forall n schema filter,
        NodeType n = Some (lit "Seq Scan") ->
        Filter n = Some filter ->
        (1000 < orElse (PlanRows n) 0)%Q ->
        let rows := orElse (PlanRows n) 0 in
        let cols := firstSeen (execAll matchColumn filter) in
        let tbl := template (RelationName n) in
        (cols = [] -> suggestNode other n schema [] = [])
        /\ (cols <> [] ->
            exists s,
              suggestNode other n schema [] = [s]
              /\ table s = RelationName n
              /\ columns s = cols
              /\ ((100000 < rows)%Q -> impactOf s = high)
              /\ ((rows <= 100000)%Q -> (10000 < rows)%Q -> impactOf s = medium)
              /\ ((rows <= 10000)%Q -> impactOf s = low)
              /\ createStatement s
                 = lit "CREATE INDEX idx_" ++ tbl ++ lit "_" ++ join (lit "_") cols
                   ++ lit " ON " ++ schema ++ lit "." ++ tbl
                   ++ lit " (" ++ join (lit ", ") cols ++ lit ");")).
  { intros n schema filter Ht Hf Hrows rows cols tbl.
    unfold suggestNode. cbv zeta. rewrite Ht, Hf.
    rewrite (proj2 (isString_of _ _) eq_refl).
    rewrite (isString_exclusive _ (lit "Seq Scan") (lit "Sort"))
      by (try discriminate; now apply isString_of).
    rewrite (proj2 (gt_lt _ _) Hrows). fold rows.
    destruct filter as [|f0 filter'].
    { (* the empty filter is falsy, and the pattern captures nothing in it *)
      split; [reflexivity|]. intros Hc. now elim Hc. }
    set (filter := f0 :: filter') in *.
    change (isTruthy (Some filter)) with true.
    simpl andb. cbv iota. simpl orElse.
    rewrite extractColumnsFromFilter_firstSeen. fold cols.
    split.
    + intros ->. reflexivity.
    + intros Hc. destruct cols as [|c0 cs] eqn:Ecols; [contradiction|].
      eexists. split; [reflexivity|]. simpl.
      split; [reflexivity|]. split; [reflexivity|].
      split; [|split; [|split]].
      * intros H. now rewrite (proj2 (gt_lt _ _) H).
      * intros H1 H2.
        now rewrite (proj2 (gt_le _ _) H1), (proj2 (gt_lt _ _) H2).
      * intros H.
        assert (H' : (rows <= 100000)%Q).
        { eapply Qle_trans; [exact H|]. discriminate. }
        now rewrite (proj2 (gt_le _ _) H'), (proj2 (gt_le _ _) H).
      * reflexivity. }
  split; [exact Walk|]. split; [exact descendants_preorder_root|].
  split; [exact analyzePlanNode_walk|]. split; [exact Rule|]. split.
  - intros plan schema n filter Hin Ht Hf Hrows Hcols.
    destruct (proj2 (Rule n schema filter Ht Hf Hrows) Hcols) as (s & Hs & _).
    exists s. split; [exact Hs|]. rewrite Walk. apply in_flat_map.
    exists n. split; [exact Hin|]. rewrite Hs. now left.
  - eexists. split; [vm_compute; reflexivity|].
    split; [vm_compute; reflexivity|].
    split; vm_compute; reflexivity.
Qed.

(** C6, as amended: [suggestIndexes] unwraps one envelope, at the root of
    the plan; from there on each node is read as it is, so an envelope
    below the root contributes nothing and hides what it contains; on a plan
    whose nodes below the root are not envelopes, the result is the one of
    the traversal that unwraps at every node. *)
Theorem suggestIndexes_unwraps_root_only :
  (forall plan schema,
      suggestIndexes other plan schema
      = flat_map (fun d => suggestNode other d schema [])
                 (descendants (unwrap plan)))
  /\ (forall p schema acc,
        analyzePlanNode other (envelope p) schema acc = acc)
  /\ (forall plan schema,
        noEnvelope (unwrap plan) = true ->
        suggestIndexes other plan schema = suggestIndexes_spec other plan schema)
  /\ (let scan := Node (Some (lit "Seq Scan")) (Some (lit "orders"))
                       (Some (lit "(user_id = 5)")) (Some 20000) None
                       None None None in
      let sort := Node (Some (lit "Sort")) None None (Some 20000) None
                       (Some [lit "o.created_at DESC"]) (Some [scan]) None in
      noEnvelope sort = true
      /\ map columns (suggestIndexes other (envelope sort) (lit "public"))
         = [[lit "created_at"]; [lit "user_id"]]
      /\ suggestIndexes other sort (lit "public")
         = suggestIndexes other (envelope sort) (lit "public")).
Proof.
  split; [|split; [|split]];
    [| | |do 2 (split; [vm_compute; reflexivity|]); vm_compute; reflexivity].
  - intros plan schema. unfold suggestIndexes. fold (unwrap plan).
    now rewrite analyzePlanNode_walk.
  - intros p schema acc. reflexivity.
  - intros plan schema H. unfold suggestIndexes, suggestIndexes_spec.
    fold (unwrap plan).
    rewrite analyzePlanNode_unfold, analyzePlanNode_unwrapping_unfold.
    apply fold_left_ext_in. intros c Hc a.
    apply analyzePlanNode_noEnvelope.
    exact (noEnvelope_children _ _ H Hc).
Qed.

(** The sort rule at one node: a sort with a non-empty array of sort keys
    and more than 5,000 estimated rows gives one suggestion; its impact is
    high above 50,000 rows and medium otherwise; its statement is the
    two-line comment with the placeholder <table>; its columns are the sort
    keys after the two replacements.  For a key made of an identifier, with
    or without a qualifier in front and a direction marker behind, the
    column is that identifier. *)
Theorem suggestIndexes_sort_rule :
  (forall n schema key keys,
      NodeType n = Some (lit "Sort") ->
      SortKey n = Some (key :: keys) ->
      (5000 < orElse (PlanRows n) 0)%Q ->
      let rows := orElse (PlanRows n) 0 in
      let cols := map sortColumn (key :: keys) in
      exists s,
        suggestNode other n schema [] = [s]
        /\ table s = Some (orElse (RelationName n) (lit "unknown"))
        /\ columns s = cols
        /\ ((50000 < rows)%Q -> impactOf s = high)
        /\ ((rows <= 50000)%Q -> impactOf s = medium)
        /\ createStatement s
           = lit "-- Consider adding an index to support this sort:" ++ [10%N]
             ++ lit "-- CREATE INDEX idx_sort_" ++ join (lit "_") cols
             ++ lit " ON " ++ schema ++ lit ".<table> (" ++ join (lit ", ") cols
             ++ lit ");")
  /\ (forall n schema,
        NodeType n = Some (lit "Sort") ->
        SortKey n = None \/ SortKey n = Some []
        \/ (orElse (PlanRows n) 0 <= 5000)%Q ->
        suggestNode other n schema [] = [])
  /\ (forall q c d,
        Forall noBreak q ->
        Forall (fun x => isWordChar x = true) c ->
        isDirection d ->
        sortColumn (q ++ 46%N :: c ++ d) = c /\ sortColumn (c ++ d) = c)
  /\ (exists s,
        suggestIndexes other
          (envelope (Node (Some (lit "Sort")) None None (Some 60000) None
                          (Some [lit "o.created_at DESC"; lit "name"]) None None))
          (lit "public") = [s]
        /\ table s = Some (lit "unknown")
        /\ columns s = [lit "created_at"; lit "name"]
        /\ impactOf s = high
        /\ createStatement s
           = lit "-- Consider adding an index to support this sort:" ++ [10%N]
             ++ lit "-- CREATE INDEX idx_sort_created_at_name ON public.<table> (created_at, name);").
Proof.
  split; [|split; [|split]];
    [| | |eexists; split; [vm_compute; reflexivity|];
          do 3 (split; [vm_compute; reflexivity|]); vm_compute; reflexivity].
  - intros n schema key keys Ht Hk Hrows rows cols.
    unfold suggestNode. cbv zeta. rewrite Ht, Hk.
    rewrite (isString_exclusive _ (lit "Sort") (lit "Seq Scan"))
      by (try discriminate; now apply isString_of).
    rewrite (proj2 (isString_of _ _) eq_refl).
    rewrite (proj2 (gt_lt _ _) Hrows). fold rows.
    simpl andb. cbv iota. fold cols. unfold cols at 1. simpl map.
    eexists. split; [reflexivity|]. simpl.
    split; [reflexivity|]. split; [reflexivity|].
    split; [|split].
    + intros H. now rewrite (proj2 (gt_lt _ _) H).
    + intros H. now rewrite (proj2 (gt_le _ _) H).
    + reflexivity.
  - intros n schema Ht H. unfold suggestNode. cbv zeta. rewrite Ht.
    rewrite (isString_exclusive _ (lit "Sort") (lit "Seq Scan"))
      by (try discriminate; now apply isString_of).
    rewrite (proj2 (isString_of _ _) eq_refl). simpl andb. cbv iota.
    destruct H as [-> | [-> | H]]; [reflexivity | reflexivity |].
    rewrite (proj2 (gt_le _ _) H).
    destruct (SortKey n) as [l|]; [|reflexivity].
    now destruct (map sortColumn l).
  - intros q c d Hq Hc Hd. unfold sortColumn.
    destruct (isDirection_plain d Hd) as [Dd Db].
    assert (Cd : Forall noDot c).
    { eapply Forall_impl; [|exact Hc]. exact wordChar_noDot. }
    assert (Cb : Forall noBreak c).
    { eapply Forall_impl; [|exact Hc]. exact wordChar_noBreak. }
    split.
    + rewrite removeQualifier_qualified;
        [now apply removeDirection_identifier | exact Hq | |];
        apply Forall_app; now split.
    + rewrite removeQualifier_unqualified by (apply Forall_app; now split).
      now apply removeDirection_identifier.
Qed.

(** C5: the columns of the sort rule are meant to be the sort keys without
    their table prefix and direction marker, and they are not: the first
    replacement removes everything up to the last full stop of the key,
    whatever stands before it.  A key that is an expression with a decimal
    constant and has no prefix at all is cut at the decimal point, and the
    suggestion names the column 5) in a statement with unbalanced
    parentheses; a marker that is not at the end of the key is removed as
    well. *)
Theorem suggestIndexes_sort_key_cut_at_full_stop :
  (forall a b,
      Forall noBreak a -> Forall noBreak b -> Forall noDot b ->
      sortColumn (a ++ 46%N :: b) = removeFirst matchDirection b)
  /\ sortColumn_spec (lit "(price * 1.5)") = lit "(price * 1.5)"
  /\ sortColumn (lit "(price * 1.5)") = lit "5)"
  /\ sortColumn_spec (lit "created_at DESC NULLS LAST")
     = lit "created_at DESC NULLS LAST"
  /\ sortColumn (lit "created_at DESC NULLS LAST") = lit "created_at NULLS LAST"
  /\ sortColumn_spec (lit "o.created_at DESC") = lit "created_at"
  /\ sortColumn (lit "o.created_at DESC") = lit "created_at"
  /\ (exists s,
        suggestIndexes other
          (envelope (Node (Some (lit "Sort")) None None (Some 6000) (Some 812)
                          (Some [lit "(price * 1.5)"]) None None))
          (lit "public") = [s]
        /\ columns s = [lit "5)"]
        /\ impactOf s = medium
        /\ reason s
           = lit "Sort operation on 5) with ~6000 rows. "
             ++ lit "An index could eliminate the sort."
        /\ createStatement s
           = lit "-- Consider adding an index to support this sort:" ++ [10%N]
             ++ lit "-- CREATE INDEX idx_sort_5) ON public.<table> (5));")
  /\ ~ (forall k, sortColumn k = sortColumn_spec k).
Proof.
  split.
  { intros a b Ha Hb Hd. unfold sortColumn.
    now rewrite (removeQualifier_qualified a b Ha Hb Hd). }
  do 6 (split; [vm_compute; reflexivity|]).
  split.
  - eexists. split; [vm_compute; reflexivity|].
    do 3 (split; [vm_compute; reflexivity|]). vm_compute. reflexivity.
  - intros H. specialize (H (lit "(price * 1.5)")). vm_compute in H. discriminate.
Qed.
End WithNumbers.

(** C4, as stated, fails on a plan node inside an envelope below the root:
    the sequential scan of this plan has a filter with a column and 20,000
    estimated rows, the warning walk reads it, and no index is suggested for
    it. *)
Lemma suggestIndexes_skips_scan_inside_envelope :
  let other := fun _ : number => [] in
  let scan := Node (Some (lit "Seq Scan")) (Some (lit "events"))
                   (Some (lit "(kind = 'click'::text)")) (Some 20000) (Some 431)
                   None None None in
  let plan := envelope (Node (Some (lit "Aggregate")) None None (Some 1)
                             (Some 481) None (Some [envelope scan]) None) in
  In scan (Warnings.preorder plan)
  /\ NodeType scan = Some (lit "Seq Scan")
  /\ Filter scan = Some (lit "(kind = 'click'::text)")
  /\ (1000 < orElse (PlanRows scan) 0)%Q
  /\ extractColumnsFromFilter (lit "(kind = 'click'::text)") = [lit "kind"]
  /\ suggestIndexes other plan (lit "public") = []
  /\ ~ In scan (descendants (unwrap plan)).
Proof.
  intros other scan plan.
  split; [right; left; reflexivity|].
  split; [reflexivity|]. split; [reflexivity|]. split; [reflexivity|].
  split; [vm_compute; reflexivity|]. split; [vm_compute; reflexivity|].
  intros [H | [H | []]]; discriminate.
Qed.

(** C6, as stated, fails: below the root, [analyzePlanNode] does not unwrap.
    With a sequential scan wrapped in an envelope as the child of the root,
    [extractWarnings] reports the scan, the traversal that unwraps at every
    node suggests an index for it, and [suggestIndexes] suggests nothing. *)
Lemma suggestIndexes_keeps_child_envelope :
  let other := fun _ : number => [] in
  let scan := Node (Some (lit "Seq Scan")) (Some (lit "orders"))
                   (Some (lit "(user_id = 5)")) (Some 20000) None None None None in
  let plan := envelope (Node (Some (lit "Limit")) None None (Some 10) None None
                             (Some [envelope scan]) None) in
  suggestIndexes other plan (lit "public") = []
  /\ List.length (suggestIndexes_spec other plan (lit "public")) = 1%nat
  /\ List.length (Warnings.extractWarnings other plan []) = 1%nat
  /\ ~ (forall plan schema,
           suggestIndexes other plan schema = suggestIndexes_spec other plan schema).
Proof.
  intros other scan plan.
  do 3 (split; [vm_compute; reflexivity|]).
  intros H. specialize (H plan (lit "public")). vm_compute in H. discriminate.
Qed.

End OptimizationFacts.

(** ** The database health report *)

Module HealthFacts.
Import Optimization PlanTree.

Lemma isRatioText_nonempty (value : jsstring) :
  isRatioText value = true -> value <> [].
Proof. intros H ->. discriminate. Qed.

Lemma cacheHitRatioField_present (value : jsstring) (rows : list (option jsstring)) :
  value <> [] -> cacheHitRatioField (Some value :: rows) = value ++ lit "%".
Proof.
  intros H. unfold cacheHitRatioField.
  destruct value as [|c v]; [contradiction | reflexivity].
Qed.

(** C8: without a row, or with a row whose ratio is null, the field is the
    text N/A; with a ratio that is present, which the sub-query gives as the
    text of a numeric with two decimals, the field is that text followed by
    a percent sign; and on these values the field is never 0%. *)
Theorem cacheHitRatioField_cases :
  cacheHitRatioField [] = lit "N/A"
  /\ (forall rows, cacheHitRatioField (None :: rows) = lit "N/A")
  /\ (forall value rows,
        isRatioText value = true ->
        cacheHitRatioField (Some value :: rows) = value ++ lit "%")
  /\ (forall value rows,
        value <> [] -> cacheHitRatioField (Some value :: rows) = value ++ lit "%")
  /\ cacheHitRatioField [Some (lit "0.00")] = lit "0.00%"
  /\ cacheHitRatioField [Some (lit "99.87")] = lit "99.87%"
  /\ (forall row rows,
        (forall value, row = Some value -> isRatioText value = true) ->
        cacheHitRatioField (row :: rows) <> lit "0%")
  /\ (forall rows, cacheHitRatioField rows <> lit "0%"
                   \/ exists rest, rows = Some (lit "0") :: rest).
Proof.
  split; [reflexivity|]. split; [reflexivity|].
  split; [|split; [|split; [|split; [|split]]]].
  - intros value rows H. apply cacheHitRatioField_present.
    now apply isRatioText_nonempty.
  - exact cacheHitRatioField_present.
  - reflexivity.
  - reflexivity.
  - intros [value|] rows H; [|discriminate].
    pose proof (H value eq_refl) as Hv.
    rewrite (cacheHitRatioField_present value rows (isRatioText_nonempty value Hv)).
    change (lit "0%") with (lit "0" ++ lit "%"). intros E.
    apply app_inv_tail in E. subst value. discriminate.
  - intros [|[value|] rows]; [left; discriminate | | left; discriminate].
    destruct value as [|c v]; [left; discriminate|].
    unfold cacheHitRatioField. simpl isTruthy. cbv iota. simpl orElse.
    destruct (list_eq_dec N.eq_dec (c :: v) (lit "0")) as [E | NE].
    + right. exists rows. now rewrite E.
    + left. intros H. apply NE.
      change (lit "0%") with (lit "0" ++ lit "%") in H.
      now apply app_inv_tail in H.
Qed.

(** The field is chosen by the truthiness of the value: the empty text,
    which the sub-query never returns, would give N/A. *)
Lemma cacheHitRatioField_empty_text :
  isRatioText [] = false
  /\ cacheHitRatioField [Some []] = lit "N/A".
Proof. split; reflexivity. Qed.

End HealthFacts.

(** ** The connection manager *)

Module DatabaseFacts.
Import Database.

Ltac unfold_methods :=
  unfold perform, connect, disconnect, queryReadOnly, query, ensureConnected,
    poolConnect, poolEnd, poolQuery, clientQuery, clientRelease, external,
    tryFinally, tryCatch, bind, ret, throw, getThis, setThis.

Lemma transactionOpen_closed (evs : list event) (text : jsstring) (open : bool) :
  text = commitText \/ text = rollbackText ->
  transactionOpen open (evs ++ [ClientQuery text true]) = false.
Proof.
  intros H. revert open. induction evs as [|ev evs IH]; intros open.
  - destruct H as [-> | ->]; reflexivity.
  - simpl. destruct ev as [ok|ok|t ok|t ok|]; try apply IH.
    destruct ok; [|apply IH].
    destruct (eqString t beginText); [apply IH|].
    destruct (eqString t commitText || eqString t rollbackText); apply IH.
Qed.

Section Methods.
Variable QueryResult : Type.
Variable connectOutcome : list event -> completion unit.
Variable endOutcome : list event -> completion unit.
Variable queryOutcome : list event -> jsstring -> completion QueryResult.

Let connect := connect connectOutcome endOutcome.
Let disconnect := disconnect endOutcome.
Let queryReadOnly := queryReadOnly connectOutcome queryOutcome.
Let query := @query QueryResult queryOutcome.
Let perform := perform connectOutcome endOutcome queryOutcome.
Let performAll := performAll connectOutcome endOutcome queryOutcome.

Lemma perform_consistent (op : operation) (s : state) :
  consistent s -> consistent (perform op s).
Proof.
  intros H. destruct s as [[p c] l]. unfold consistent in *. simpl in H.
  destruct op as [cfg| |sql|sql]; subst perform; unfold_methods; simpl.
  - destruct p as [p|]; simpl.
    + destruct (endOutcome l); simpl; [|exact H].
      destruct (connectOutcome _); simpl; right; split; discriminate.
    + destruct (connectOutcome _); simpl; right; split; discriminate.
  - destruct p as [p|]; simpl; [|exact H].
    destruct (endOutcome l); simpl; [now left | exact H].
  - destruct p as [p|]; simpl; [|exact H].
    destruct (connectOutcome l); simpl; [|exact H].
    destruct (queryOutcome _ beginText); simpl.
    + destruct (queryOutcome _ sql); simpl.
      * destruct (queryOutcome _ commitText); simpl; [exact H|].
        destruct (queryOutcome _ rollbackText); exact H.
      * destruct (queryOutcome _ rollbackText); exact H.
    + destruct (queryOutcome _ rollbackText); exact H.
  - destruct p as [p|]; simpl; exact H.
Qed.

Lemma performAll_consistent (ops : list operation) (s : state) :
  consistent s -> consistent (performAll ops s).
Proof.
  revert s. induction ops as [|op ops IH]; intros s H; simpl; [exact H|].
  apply IH. now apply perform_consistent.
Qed.

(** C10: the pool handle and the configuration are both null or both set
    in the initial manager and after every operation, whatever the pool
    answers and whether the operation returns or throws; hence
    [isConnected()] is true exactly when [getConnectionInfo()] is not null;
    and [disconnect] on a manager without a pool returns without a call to
    the pool and without a change. *)
Theorem manager_consistent :
  consistent initial
  /\ (forall op s, consistent s -> consistent (perform op s))
  /\ (forall ops,
        let s := performAll ops initial in
        consistent s
        /\ (isConnected s = true <-> getConnectionInfo s <> None))
  /\ (forall s, isConnected s = false -> disconnect s = (Return tt, s)).
Proof.
  split; [left; split; reflexivity|].
  split; [exact perform_consistent|]. split.
  - intros ops s.
    assert (H : consistent s)
      by (apply performAll_consistent; left; split; reflexivity).
    split; [exact H|].
    unfold isConnected, getConnectionInfo.
    destruct H as [[-> ->] | [Hp Hc]].
    + split; [discriminate | congruence].
    + destruct (pool (this s)); [|congruence]. split; auto.
  - intros [[p c] l]. unfold isConnected. simpl.
    destruct p; [discriminate|]. reflexivity.
Qed.

Ltac normalise_log := repeat (rewrite <- app_assoc; simpl app).

(** C7, as amended: [queryReadOnly] leaves the manager's fields alone; it
    throws before any call when there is no pool, and after the failed
    [pool.connect()] alone when no client is obtained; once a client is
    obtained, the calls on it are queries followed by exactly one release,
    the last; when all three commands succeed the result of the statement
    is returned and the transaction is committed; when BEGIN, the statement
    or COMMIT fails, ROLLBACK is the query right before the release; if
    ROLLBACK succeeds, no transaction is open at the release and the error
    thrown is that of the failed command; if ROLLBACK fails, the error
    thrown is that of ROLLBACK. *)
Theorem queryReadOnly_rollback_then_release (sql : jsstring) (s : state) :
  let c := fst (queryReadOnly sql s) in
  let s' := snd (queryReadOnly sql s) in
  this s' = this s
  /\ (pool (this s) = None ->
      c = Throw notConnectedMessage /\ log s' = log s)
  /\ (pool (this s) <> None ->
      forall e, connectOutcome (log s) = Throw e ->
                c = Throw e /\ log s' = log s ++ [PoolConnect false])
  /\ (pool (this s) <> None ->
      connectOutcome (log s) = Return tt ->
      exists evs,
        log s' = log s ++ PoolConnect true :: evs ++ [ClientRelease]
        /\ Forall isClientQuery evs
        /\ releases (PoolConnect true :: evs ++ [ClientRelease]) = 1%nat
        /\ (forall r, c = Return r ->
              evs = [ClientQuery beginText true; ClientQuery sql true;
                     ClientQuery commitText true]
              /\ queryOutcome
                   (log s ++ [PoolConnect true; ClientQuery beginText true]) sql
                 = Return r
              /\ transactionOpen false evs = false)
        /\ (forall e, c = Throw e ->
              exists pre ok,
                evs = pre ++ [ClientQuery rollbackText ok]
                /\ (ok = true ->
                    transactionOpen false evs = false
                    /\ exists before text,
                        pre = before ++ [ClientQuery text false]
                        /\ queryOutcome (log s ++ PoolConnect true :: before) text
                           = Throw e)
                /\ (ok = false ->
                    queryOutcome (log s ++ PoolConnect true :: pre) rollbackText
                    = Throw e))).
Proof.
  destruct s as [[p cfg] l]. subst queryReadOnly. unfold_methods. simpl.
  destruct p as [p|]; simpl.
  2:{ split; [reflexivity|]. split; [auto|]. split; intros H; now elim H. }
  destruct (connectOutcome l) as [[]|e0] eqn:C; simpl.
  2:{ split; [reflexivity|]. split; [discriminate|].
      split; [|discriminate]. intros _ e [= <-]. auto. }
  destruct (queryOutcome (l ++ [PoolConnect true]) beginText)
    as [rb|eb] eqn:B; simpl; normalise_log.
  - destruct (queryOutcome (l ++ [PoolConnect true; ClientQuery beginText true]) sql)
      as [r|eq] eqn:Q; simpl; normalise_log.
    + destruct (queryOutcome
                  (l ++ [PoolConnect true; ClientQuery beginText true;
                         ClientQuery sql true]) commitText)
        as [rc|ec] eqn:Cm; simpl; normalise_log.
      * (* all three succeed *)
        split; [reflexivity|]. split; [discriminate|]. split; [discriminate|].
        intros _ _.
        exists [ClientQuery beginText true; ClientQuery sql true;
                ClientQuery commitText true].
        split; [reflexivity|]. split; [repeat constructor|].
        split; [reflexivity|]. split.
        -- intros r' [= <-]. split; [reflexivity|]. split; [reflexivity|].
           exact (transactionOpen_closed
                    [ClientQuery beginText true; ClientQuery sql true]
                    commitText false (or_introl eq_refl)).
        -- discriminate.
      * (* COMMIT fails *)
        destruct (queryOutcome
                    (l ++ [PoolConnect true; ClientQuery beginText true;
                           ClientQuery sql true; ClientQuery commitText false])
                    rollbackText) as [rr|er] eqn:R; simpl; normalise_log;
          (split; [reflexivity|]; split; [discriminate|]; split; [discriminate|];
           intros _ _;
           eexists [ClientQuery beginText true; ClientQuery sql true;
                    ClientQuery commitText false; ClientQuery rollbackText _];
           split; [reflexivity|]; split; [repeat constructor|]; split; [reflexivity|];
           split; [discriminate|]; intros e [= <-];
           exists [ClientQuery beginText true; ClientQuery sql true;
                   ClientQuery commitText false]; eexists;
           split; [reflexivity|]; split; [|first [discriminate | intros _; exact R]]).
        intros _. split.
        -- exact (transactionOpen_closed
                    [ClientQuery beginText true; ClientQuery sql true;
                     ClientQuery commitText false]
                    rollbackText false (or_intror eq_refl)).
        -- exists [ClientQuery beginText true; ClientQuery sql true], commitText.
           split; [reflexivity | exact Cm].
        -- discriminate.
    + (* the statement fails *)
      destruct (queryOutcome
                  (l ++ [PoolConnect true; ClientQuery beginText true;
                         ClientQuery sql false]) rollbackText)
        as [rr|er] eqn:R; simpl; normalise_log;
        (split; [reflexivity|]; split; [discriminate|]; split; [discriminate|];
         intros _ _;
         eexists [ClientQuery beginText true; ClientQuery sql false;
                  ClientQuery rollbackText _];
         split; [reflexivity|]; split; [repeat constructor|]; split; [reflexivity|];
         split; [discriminate|]; intros e [= <-];
         exists [ClientQuery beginText true; ClientQuery sql false]; eexists;
         split; [reflexivity|]; split; [|first [discriminate | intros _; exact R]]).
      * intros _. split.
        -- exact (transactionOpen_closed
                    [ClientQuery beginText true; ClientQuery sql false]
                    rollbackText false (or_intror eq_refl)).
        -- exists [ClientQuery beginText true], sql.
           split; [reflexivity | exact Q].
      * discriminate.
  - (* BEGIN fails *)
    destruct (queryOutcome
                (l ++ [PoolConnect true; ClientQuery beginText false]) rollbackText)
      as [rr|er] eqn:R; simpl; normalise_log;
      (split; [reflexivity|]; split; [discriminate|]; split; [discriminate|];
       intros _ _;
       eexists [ClientQuery beginText false; ClientQuery rollbackText _];
       split; [reflexivity|]; split; [repeat constructor|]; split; [reflexivity|];
       split; [discriminate|]; intros e [= <-];
       exists [ClientQuery beginText false]; eexists;
       split; [reflexivity|]; split; [|first [discriminate | intros _; exact R]]).
    + intros _. split.
      * exact (transactionOpen_closed [ClientQuery beginText false]
                 rollbackText false (or_intror eq_refl)).
      * exists [], beginText. split; [reflexivity | exact B].
    + discriminate.
Qed.
End Methods.

(** C7, as stated, fails when ROLLBACK fails too: with a pool whose client
    accepts BEGIN, rejects the statement (division by zero) and then rejects
    ROLLBACK (connection lost), the error thrown is the one of ROLLBACK, not
    the one of the statement, and the transaction that was begun is neither
    committed nor rolled back when the client is released. *)
Lemma queryReadOnly_rollback_failure_masks_error :
  let connectOutcome := fun _ : list event => Return tt in
  let queryOutcome :=
    fun (_ : list event) (text : jsstring) =>
      if eqString text beginText then Return tt
      else if eqString text rollbackText
           then Throw (lit "Connection terminated unexpectedly")
           else Throw (lit "division by zero") in
  let cfg := {| host := lit "localhost"; port := 5432; database := lit "app";
                user := lit "reader"; password := lit "secret"; ssl := None |} in
  let s := perform connectOutcome (fun _ => Return tt) queryOutcome
                   (Connect cfg) initial in
  let sql := lit "SELECT 1/0" in
  isConnected s = true
  /\ queryOutcome (log s ++ [PoolConnect true; ClientQuery beginText true]) sql
     = Throw (lit "division by zero")
  /\ fst (queryReadOnly connectOutcome queryOutcome sql s)
     = Throw (lit "Connection terminated unexpectedly")
  /\ log (snd (queryReadOnly connectOutcome queryOutcome sql s))
     = log s ++ [PoolConnect true; ClientQuery beginText true;
                 ClientQuery sql false; ClientQuery rollbackText false;
                 ClientRelease]
  /\ transactionOpen false
       [ClientQuery beginText true; ClientQuery sql false;
        ClientQuery rollbackText false] = true.
Proof.
  intros connectOutcome queryOutcome cfg s sql.
  do 4 (split; [vm_compute; reflexivity|]).
  vm_compute. reflexivity.
Qed.

End DatabaseFacts.

(** ** Further properties of the SQL safety validator *)

Module ValidatorFacts.
Import JSFacts Query QueryFacts Optimization Notions.

(** A pattern that matches at no position removes nothing. *)
Lemma removeAll_no_match {A : Type} (matchHere : jsstring -> option (A * nat))
      (s : jsstring) :
  (forall pre post, s = pre ++ post -> matchHere post = None) ->
  removeAll matchHere s = s.
Proof.
  unfold removeAll. induction s as [|c r IH]; intros H; simpl; [reflexivity|].
  rewrite (H [] (c :: r) eq_refl). simpl. f_equal. apply IH.
  intros pre post E. apply (H (c :: pre) post). now rewrite E.
Qed.

Lemma occursIn_suffix (pat pre post : jsstring) :
  occursIn pat (pre ++ post) = false -> startsWith pat post = false.
Proof.
  induction pre as [|c pre IH]; simpl; intros H.
  - destruct post; simpl in H; now apply orb_false_iff in H as [H _].
  - apply orb_false_iff in H as [_ H]. now apply IH.
Qed.

Lemma matchLineComment_some (s : jsstring) (r : unit * nat) :
  matchLineComment s = Some r -> startsWith (lit "--") s = true.
Proof.
  unfold matchLineComment. destruct s as [|c [|d rest]]; try discriminate.
  destruct (c =? 45)%N eqn:C; [|discriminate].
  destruct (d =? 45)%N eqn:D; [|discriminate].
  apply N.eqb_eq in C, D. subst. reflexivity.
Qed.

Lemma matchBlockComment_some (s : jsstring) (r : unit * nat) :
  matchBlockComment s = Some r -> startsWith (lit "/*") s = true.
Proof.
  unfold matchBlockComment. destruct s as [|c [|d rest]]; try discriminate.
  destruct (c =? 47)%N eqn:C; [|discriminate].
  destruct (d =? 42)%N eqn:D; [|discriminate].
  apply N.eqb_eq in C, D. subst. reflexivity.
Qed.

Lemma cleaned_without_openers (sql : jsstring) :
  occursIn (lit "--") sql = false -> occursIn (lit "/*") sql = false ->
  cleaned sql = sql.
Proof.
  intros H1 H2. unfold cleaned.
  assert (E : removeAll matchLineComment sql = sql).
  { apply removeAll_no_match. intros pre post E.
    destruct (matchLineComment post) as [r|] eqn:M; [|reflexivity].
    apply matchLineComment_some in M. rewrite E in H1.
    apply occursIn_suffix in H1. congruence. }
  rewrite E. apply removeAll_no_match. intros pre post E'.
  destruct (matchBlockComment post) as [r|] eqn:M; [|reflexivity].
  apply matchBlockComment_some in M. rewrite E' in H2.
  apply occursIn_suffix in H2. congruence.
Qed.

(** X1: on a statement in which neither two dashes nor a slash and a star
    occur, the validator decides on the statement as it is: it returns
    exactly when no forbidden keyword occurs in it as a whole word, and what
    it throws names a pattern with such an occurrence. *)
Theorem validateReadOnly_exact_without_comments (sql : jsstring) :
  occursIn (lit "--") sql = false ->
  occursIn (lit "/*") sql = false ->
  cleaned sql = sql
  /\ (validateReadOnly sql = Return tt <->
      forall p, In p forbidden -> ~ occursAsWord (alternatives p) sql)
  /\ (forall message,
        validateReadOnly sql = Throw message ->
        exists p, In p forbidden /\ occursAsWord (alternatives p) sql
                  /\ message = forbiddenMessage p).
Proof.
  intros H1 H2. pose proof (cleaned_without_openers sql H1 H2) as E.
  pose proof (validateReadOnly_on_cleaned sql) as V. rewrite E in V.
  split; [exact E | exact V].
Qed.

Lemma validateReadOnly_exact_without_comments_witness :
  cleaned (lit "SELECT id FROM drops WHERE a - b > 1 / 2")
  = lit "SELECT id FROM drops WHERE a - b > 1 / 2".
Proof.
  apply (validateReadOnly_exact_without_comments
           (lit "SELECT id FROM drops WHERE a - b > 1 / 2"));
    vm_compute; reflexivity.
Defined.

(** *** Line comments as a scan *)

Lemma scanGlobal_zero {A : Type} (m : jsstring -> option (A * nat))
      (c : N) (r : jsstring) :
  scanGlobal m 0 (c :: r)
  = match m (c :: r) with
    | Some (a, len) => inr a :: scanGlobal m (pred len) r
    | None => inl c :: scanGlobal m 0 r
    end.
Proof. reflexivity. Qed.

Lemma stripLine_outside (c d : N) (r : jsstring) :
  stripLine false (c :: d :: r)
  = if ((c =? 45) && (d =? 45))%N then stripLine true (d :: r)
    else c :: stripLine false (d :: r).
Proof. reflexivity. Qed.

Lemma stripLine_scan (s : jsstring) :
  unmatched (scanGlobal matchLineComment 0 s) = stripLine false s
  /\ unmatched
       (scanGlobal matchLineComment
          (List.length (takeWhile (fun c => negb (isLineTerminator c)) s)) s)
     = stripLine true s.
Proof.
  induction s as [|c r [IH0 IH1]]; [split; reflexivity|]. split.
  - rewrite scanGlobal_zero. destruct r as [|d r']; [reflexivity|].
    rewrite stripLine_outside. unfold matchLineComment.
    destruct ((c =? 45) && (d =? 45))%N eqn:E.
    + apply andb_true_iff in E as [_ D]. apply N.eqb_eq in D. subst d.
      exact IH1.
    + change (c :: unmatched (scanGlobal matchLineComment 0 (d :: r'))
              = c :: stripLine false (d :: r')).
      now rewrite IH0.
  - cbn [takeWhile stripLine].
    destruct (isLineTerminator c) eqn:L; cbn [negb List.length].
    + rewrite scanGlobal_zero.
      assert (M : matchLineComment (c :: r) = None).
      { unfold matchLineComment. destruct r as [|d r']; [reflexivity|].
        destruct (c =? 45)%N eqn:C; [|reflexivity].
        apply N.eqb_eq in C. subst c. discriminate. }
      rewrite M.
      change (c :: unmatched (scanGlobal matchLineComment 0 r)
              = c :: stripLine false r).
      now rewrite IH0.
    + exact IH1.
Qed.

Lemma removeLineComments_stripLine (s : jsstring) :
  removeAll matchLineComment s = stripLine false s.
Proof. exact (proj1 (stripLine_scan s)). Qed.

Lemma stripLine_inside (x : jsstring) :
  Forall noBreak x -> stripLine true x = [].
Proof.
  induction 1 as [|c x Hc Hx IH]; [reflexivity|].
  cbn [stripLine]. unfold noBreak in Hc. now rewrite Hc.
Qed.

(** What follows two dashes on their line does not reach the result. *)
Lemma stripLine_after_dashes (a x : jsstring) (mode : bool) :
  Forall noBreak x ->
  stripLine mode (a ++ lit "--" ++ x) = stripLine mode (a ++ lit "--").
Proof.
  intros Hx. revert mode. induction a as [|c a IH]; intros mode.
  - change (lit "--") with [45%N; 45%N].
    destruct mode; cbn; now rewrite (stripLine_inside x Hx).
  - cbn [app stripLine]. destruct mode.
    + destruct (isLineTerminator c); now rewrite IH.
    + assert (Hd : match a ++ lit "--" ++ x with
                   | d :: _ => hd_error (a ++ lit "--") = Some d
                   | [] => False
                   end) by (destruct a; reflexivity).
      destruct (a ++ lit "--" ++ x) as [|d t] eqn:E1; [contradiction|].
      destruct (a ++ lit "--") as [|d' t'] eqn:E2; [discriminate|].
      injection Hd as ->.
      destruct ((c =? 45) && (d =? 45))%N; now rewrite IH.
Qed.

Lemma oneLine_noBreak (x : jsstring) : oneLine x = true -> Forall noBreak x.
Proof.
  unfold oneLine. intros H. apply Forall_forall. intros c Hc.
  apply (proj1 (forallb_forall _ _) H) in Hc.
  unfold noBreak. now apply negb_true_iff.
Qed.

(** X2: the validator does not see what follows two dashes on their line,
    wherever the dashes stand: with or without that text the verdict is the
    same. *)
Theorem validateReadOnly_blind_after_dashes (a x : jsstring) :
  oneLine x = true ->
  validateReadOnly (a ++ lit "--" ++ x) = validateReadOnly (a ++ lit "--").
Proof.
  intros H. unfold validateReadOnly, cleaned.
  rewrite !removeLineComments_stripLine.
  now rewrite (stripLine_after_dashes a x false (oneLine_noBreak x H)).
Qed.

Lemma validateReadOnly_blind_after_dashes_witness :
  validateReadOnly (lit "SELECT '" ++ lit "--" ++ lit "'; DELETE FROM t")
  = validateReadOnly (lit "SELECT '" ++ lit "--").
Proof.
  apply (validateReadOnly_blind_after_dashes (lit "SELECT '") (lit "'; DELETE FROM t")).
  vm_compute. reflexivity.
Defined.

(** X3: when the text left by the trimming has two dashes on its last line,
    the clause that [ensureLimit] appends stands behind them: after the
    removal of comments the statement is the same as without the clause. *)
Theorem ensureLimit_clause_inside_line_comment
        (other : number -> jsstring) (sql : jsstring) (limit : number)
        (a b : jsstring) :
  trimmedOf sql = a ++ lit "--" ++ b ->
  oneLine b = true ->
  oneLine (numberToString other limit) = true ->
  isSelect (trimmedOf sql) = true ->
  hasLimit (trimmedOf sql) = false ->
  ensureLimit other sql limit
  = trimmedOf sql ++ lit " LIMIT " ++ numberToString other limit
  /\ cleaned (ensureLimit other sql limit) = cleaned (trimmedOf sql).
Proof.
  intros E Hb Hn Hs Hl.
  assert (R : ensureLimit other sql limit
              = trimmedOf sql ++ lit " LIMIT " ++ numberToString other limit).
  { unfold ensureLimit. now rewrite Hs, Hl. }
  split; [exact R|]. rewrite R, E. unfold cleaned.
  rewrite !removeLineComments_stripLine. rewrite <- !app_assoc.
  assert (Hx : Forall noBreak (b ++ lit " LIMIT " ++ numberToString other limit)).
  { apply Forall_app. split; [now apply oneLine_noBreak|].
    apply Forall_app. split; now apply oneLine_noBreak. }
  rewrite (stripLine_after_dashes a _ false Hx).
  now rewrite (stripLine_after_dashes a b false (oneLine_noBreak b Hb)).
Qed.

Lemma ensureLimit_clause_inside_line_comment_witness :
  ensureLimit (fun _ => []) (lit "SELECT * FROM t -- every row") 100
  = trimmedOf (lit "SELECT * FROM t -- every row") ++ lit " LIMIT "
    ++ numberToString (fun _ => []) 100
  /\ cleaned (ensureLimit (fun _ => []) (lit "SELECT * FROM t -- every row") 100)
     = cleaned (trimmedOf (lit "SELECT * FROM t -- every row")).
Proof.
  apply (ensureLimit_clause_inside_line_comment
           (fun _ => []) (lit "SELECT * FROM t -- every row") 100
           (lit "SELECT * FROM t ") (lit " every row"));
    vm_compute; reflexivity.
Defined.

(** X4: a result of [ensureLimit] that begins with SELECT contains the
    keyword LIMIT. *)
Theorem ensureLimit_select_has_limit
        (other : number -> jsstring) (sql : jsstring) (limit : number) :
  isSelect (ensureLimit other sql limit) = true ->
  hasLimit (ensureLimit other sql limit) = true.
Proof.
  unfold ensureLimit.
  destruct (isSelect (trimmedOf sql)) eqn:S; simpl.
  - destruct (hasLimit (trimmedOf sql)) eqn:L; simpl.
    + intros _. exact L.
    + intros _. apply hasLimit_appended.
  - congruence.
Qed.

Lemma ensureLimit_select_has_limit_witness :
  hasLimit (ensureLimit (fun _ => []) (lit "select name from users;") 25) = true.
Proof.
  apply (ensureLimit_select_has_limit (fun _ => []) (lit "select name from users;") 25).
  vm_compute. reflexivity.
Defined.

(** *** The case of letters *)

Ltac decide_comparisons :=
  repeat match goal with
         | |- context [(?a <=? ?b)%N] => destruct (N.leb_spec a b)
         | |- context [(?a =? ?b)%N] => destruct (N.eqb_spec a b)
         end;
  simpl; try reflexivity; try lia.

Lemma canonicalize_cases (c : N) :
  (97 <= c <= 122 /\ canonicalize c = c - 32)%N
  \/ (~ (97 <= c <= 122)%N /\ canonicalize c = c).
Proof.
  unfold canonicalize, inRange.
  destruct (N.leb_spec 97 c), (N.leb_spec c 122); simpl; auto; right; split; auto; lia.
Qed.

Lemma isWordChar_canonicalize (c : N) : isWordChar (canonicalize c) = isWordChar c.
Proof.
  destruct (canonicalize_cases c) as [[H ->] | [H ->]]; [|reflexivity].
  unfold isWordChar, inRange. decide_comparisons.
Qed.

Lemma isLineTerminator_canonicalize (c : N) :
  isLineTerminator (canonicalize c) = isLineTerminator c.
Proof.
  destruct (canonicalize_cases c) as [[H ->] | [H ->]]; [|reflexivity].
  unfold isLineTerminator. decide_comparisons.
Qed.

Lemma punctuation_canonicalize (c k : N) :
  (k < 65)%N -> (canonicalize c =? k)%N = (c =? k)%N.
Proof.
  intros Hk. destruct (canonicalize_cases c) as [[H ->] | [H ->]]; [|reflexivity].
  decide_comparisons.
Qed.

Lemma sameLetter_word (c d : N) : sameLetter c d -> isWordChar c = isWordChar d.
Proof.
  intros H. rewrite <- (isWordChar_canonicalize c), H. apply isWordChar_canonicalize.
Qed.

Lemma sameLetter_break (c d : N) :
  sameLetter c d -> isLineTerminator c = isLineTerminator d.
Proof.
  intros H. rewrite <- (isLineTerminator_canonicalize c), H.
  apply isLineTerminator_canonicalize.
Qed.

Lemma sameLetter_punctuation (c d k : N) :
  (k < 65)%N -> sameLetter c d -> (c =? k)%N = (d =? k)%N.
Proof.
  intros Hk H. rewrite <- (punctuation_canonicalize c k Hk), H.
  now apply punctuation_canonicalize.
Qed.

Lemma sameUpToCase_line (r r' : jsstring) :
  sameUpToCase r r' ->
  List.length (takeWhile (fun c => negb (isLineTerminator c)) r)
  = List.length (takeWhile (fun c => negb (isLineTerminator c)) r').
Proof.
  induction 1 as [|c d r r' H _ IH]; simpl; [reflexivity|].
  rewrite (sameLetter_break c d H). destruct (isLineTerminator d); simpl; congruence.
Qed.

Lemma sameUpToCase_lineComment (s s' : jsstring) :
  sameUpToCase s s' -> matchLineComment s = matchLineComment s'.
Proof.
  intros H. destruct H as [|c c' r r' Hc Hr]; [reflexivity|].
  destruct Hr as [|d d' r r' Hd Hr]; [reflexivity|].
  unfold matchLineComment.
  rewrite (sameLetter_punctuation c c' 45), (sameLetter_punctuation d d' 45)
    by (assumption || reflexivity).
  now rewrite (sameUpToCase_line r r' Hr).
Qed.

Lemma sameUpToCase_closeIndex (s s' : jsstring) :
  sameUpToCase s s' -> closeIndex s = closeIndex s'.
Proof.
  induction 1 as [|c c' r r' Hc Hr IH]; [reflexivity|].
  cbn [closeIndex]. destruct Hr as [|d d' r r' Hd Hr]; [reflexivity|].
  rewrite (sameLetter_punctuation c c' 42), (sameLetter_punctuation d d' 47)
    by (assumption || reflexivity).
  now rewrite IH.
Qed.

Lemma sameUpToCase_blockComment (s s' : jsstring) :
  sameUpToCase s s' -> matchBlockComment s = matchBlockComment s'.
Proof.
  intros H. destruct H as [|c c' r r' Hc Hr]; [reflexivity|].
  destruct Hr as [|d d' r r' Hd Hr]; [reflexivity|].
  unfold matchBlockComment.
  rewrite (sameLetter_punctuation c c' 47), (sameLetter_punctuation d d' 42)
    by (assumption || reflexivity).
  now rewrite (sameUpToCase_closeIndex r r' Hr).
Qed.

Lemma sameUpToCase_removeAll (m : jsstring -> option (unit * nat)) :
  (forall s s', sameUpToCase s s' -> m s = m s') ->
  forall s s', sameUpToCase s s' ->
               sameUpToCase (removeAll m s) (removeAll m s').
Proof.
  intros Hm s s' H. unfold removeAll. generalize 0%nat as k.
  induction H as [|c c' r r' Hc Hr IH]; intros k; [constructor|].
  assert (E : m (c :: r) = m (c' :: r')) by (apply Hm; now constructor).
  destruct k as [|k]; [|apply IH].
  rewrite !scanGlobal_zero, E.
  destruct (m (c' :: r')) as [[[] len]|]; cbn [unmatched]; [apply IH|].
  constructor; [exact Hc | apply IH].
Qed.

Lemma sameUpToCase_cleaned (s s' : jsstring) :
  sameUpToCase s s' -> sameUpToCase (cleaned s) (cleaned s').
Proof.
  intros H. unfold cleaned.
  apply (sameUpToCase_removeAll _ sameUpToCase_blockComment).
  now apply (sameUpToCase_removeAll _ sameUpToCase_lineComment).
Qed.

Lemma sameOption_boundary (a a' b b' : option N) :
  sameOption a a' -> sameOption b b' -> wordBoundary a b = wordBoundary a' b'.
Proof.
  unfold wordBoundary.
  destruct a, a', b, b'; simpl; try contradiction; intros H1 H2;
    rewrite ?(sameLetter_word _ _ H1), ?(sameLetter_word _ _ H2); reflexivity.
Qed.

Lemma sameUpToCase_head (s s' : jsstring) :
  sameUpToCase s s' -> sameOption (hd_error s) (hd_error s').
Proof. intros [|c d r r' H _]; simpl; auto. Qed.

Lemma sameUpToCase_rev (s s' : jsstring) :
  sameUpToCase s s' -> sameUpToCase (rev s) (rev s').
Proof.
  induction 1 as [|c d r r' H _ IH]; simpl; [constructor|].
  apply Forall2_app; [exact IH | now repeat constructor].
Qed.

Lemma sameUpToCase_literal (kw s s' : jsstring) :
  sameUpToCase s s' ->
  match matchLiteralCI kw s, matchLiteralCI kw s' with
  | Some (m, rest), Some (m', rest') =>
      sameUpToCase m m' /\ sameUpToCase rest rest'
  | None, None => True
  | _, _ => False
  end.
Proof.
  revert s s'. induction kw as [|p kw IH]; intros s s' H; simpl.
  - split; [constructor | exact H].
  - destruct H as [|c d r r' Hc Hr]; [exact I|].
    assert (E : eqCI p c = eqCI p d) by (unfold eqCI; now rewrite Hc).
    rewrite E. destruct (eqCI p d); [|exact I].
    specialize (IH r r' Hr).
    destruct (matchLiteralCI kw r) as [[m rest]|],
             (matchLiteralCI kw r') as [[m' rest']|]; try contradiction; [|exact I].
    destruct IH as [IH1 IH2]. split; [now constructor | exact IH2].
Qed.

Lemma sameUpToCase_matchWordAt (alts : list jsstring) (prev prev' : option N)
      (s s' : jsstring) :
  sameOption prev prev' -> sameUpToCase s s' ->
  matchWordAt alts prev s = matchWordAt alts prev' s'.
Proof.
  intros Hp H. unfold matchWordAt.
  rewrite (sameOption_boundary prev prev' (hd_error s) (hd_error s') Hp
             (sameUpToCase_head s s' H)).
  f_equal. induction alts as [|kw alts IH]; simpl; [reflexivity|].
  rewrite IH. f_equal.
  pose proof (sameUpToCase_literal kw s s' H) as L.
  destruct (matchLiteralCI kw s) as [[m rest]|],
           (matchLiteralCI kw s') as [[m' rest']|]; try contradiction;
    [|reflexivity].
  destruct L as [L1 L2].
  apply sameOption_boundary; apply sameUpToCase_head;
    [now apply sameUpToCase_rev | exact L2].
Qed.

Lemma sameUpToCase_testWord (alts : list jsstring) (s s' : jsstring) :
  sameUpToCase s s' -> testWord alts s = testWord alts s'.
Proof.
  intros H. unfold testWord, test.
  assert (G : forall prev prev', sameOption prev prev' ->
              testFrom (matchWordAt alts) prev s
              = testFrom (matchWordAt alts) prev' s').
  { induction H as [|c d r r' Hc Hr IH]; intros prev prev' Hp; simpl.
    - now rewrite (sameUpToCase_matchWordAt alts prev prev' [] [] Hp (Forall2_nil _)).
    - rewrite (sameUpToCase_matchWordAt alts prev prev' (c :: r) (d :: r') Hp)
        by now constructor.
      f_equal. now apply IH. }
  now apply G.
Qed.

Lemma equalUpToCase_same (s t : jsstring) :
  equalUpToCase s t = true -> sameUpToCase s t.
Proof.
  revert t. induction s as [|c s IH]; intros [|d t]; simpl; try discriminate.
  - constructor.
  - intros H. apply andb_true_iff in H as [H1 H2].
    constructor; [now apply N.eqb_eq | now apply IH].
Qed.

(** X5: two statements that differ only in the case of ASCII letters get the
    same verdict, with the same message. *)
Theorem validateReadOnly_ignores_case (sql sql' : jsstring) :
  equalUpToCase sql sql' = true -> validateReadOnly sql = validateReadOnly sql'.
Proof.
  intros H. apply equalUpToCase_same in H. unfold validateReadOnly.
  pose proof (sameUpToCase_cleaned sql sql' H) as C.
  induction forbidden as [|p ps IH]; simpl; [reflexivity|].
  rewrite (sameUpToCase_testWord (alternatives p) _ _ C).
  destruct (testWord (alternatives p) (cleaned sql')); [reflexivity | exact IH].
Qed.

Lemma validateReadOnly_ignores_case_witness :
  validateReadOnly (lit "Truncate orders") = validateReadOnly (lit "tRUNCATE ORDERS").
Proof.
  apply (validateReadOnly_ignores_case (lit "Truncate orders") (lit "tRUNCATE ORDERS")).
  vm_compute. reflexivity.
Defined.

End ValidatorFacts.

(** ** Further properties of the plan walkers *)

Module WalkFacts.
Import JSFacts PlanTree PlanFacts Warnings Optimization OptimizationFacts Notions.

Lemma firstSeen_In (l : list jsstring) (y : jsstring) :
  In y (firstSeen l) -> In y l.
Proof.
  induction l as [|x l IH]; simpl; [auto|].
  intros [-> | H]; [now left|].
  apply filter_In in H as [H _]. right. now apply IH.
Qed.

Lemma firstSeen_NoDup (l : list jsstring) : NoDup (firstSeen l).
Proof.
  induction l as [|x l IH]; simpl; constructor.
  - intros H. apply filter_In in H as [_ H].
    apply negb_true_iff in H.
    assert (E : eqString x x = true) by now apply eqString_true.
    congruence.
  - now apply NoDup_filter.
Qed.

Lemma matchColumn_identifier (s col : jsstring) (len : nat) :
  matchColumn s = Some (col, len) ->
  col <> [] /\ forallb isWordChar col = true.
Proof.
  intros M. split; [exact (matchColumn_capture s col len M)|].
  unfold matchColumn in M. destruct s as [|c r]; [discriminate|].
  destruct (c =? 40)%N; [|discriminate].
  destruct (takeWhile isWordChar r) as [|w ws] eqn:T; [discriminate|].
  destruct (takeWhile isComparisonChar _); [discriminate|].
  injection M as <- _. rewrite <- T.
  apply forallb_forall. intros x Hx.
  exact (proj1 (Forall_forall _ _) (takeWhile_all isWordChar r) x Hx).
Qed.

(** X6: the columns taken from a filter are pairwise different, and each is
    a non-empty run of letters, digits and underscores. *)
Theorem extractColumnsFromFilter_distinct_identifiers (filter : jsstring) :
  NoDup (extractColumnsFromFilter filter)
  /\ Forall (fun col => col <> [] /\ forallb isWordChar col = true)
            (extractColumnsFromFilter filter).
Proof.
  rewrite extractColumnsFromFilter_firstSeen. split; [apply firstSeen_NoDup|].
  apply Forall_forall. intros col H. apply firstSeen_In in H.
  pose proof (captures_all matchColumn
                (fun col => col <> [] /\ forallb isWordChar col = true)
                matchColumn_identifier filter 0) as F.
  exact (proj1 (Forall_forall _ _) F col H).
Qed.

Lemma lastDot_tail (s : jsstring) (n : nat) :
  lastDot s = Some n -> Forall noDot (skipn (S n) s).
Proof.
  revert n. induction s as [|c r IH]; intros n; simpl; [discriminate|].
  destruct (lastDot r) as [k|] eqn:L.
  - intros [= <-]. now apply IH.
  - destruct (c =? 46)%N; [|discriminate]. intros [= <-]. simpl.
    clear IH. induction r as [|d r IHr]; [constructor|].
    simpl in L. destruct (lastDot r); [discriminate|].
    destruct (d =? 46)%N eqn:D; [discriminate|].
    constructor; [exact D | now apply IHr].
Qed.

Lemma lastDot_absent (s : jsstring) : lastDot s = None -> Forall noDot s.
Proof.
  induction s as [|c r IH]; simpl; [constructor|].
  destruct (lastDot r); [discriminate|].
  destruct (c =? 46)%N eqn:D; [discriminate|].
  intros _. constructor; [exact D | now apply IH].
Qed.

Lemma Forall_skipn {A : Type} (P : A -> Prop) (n : nat) (l : list A) :
  Forall P l -> Forall P (skipn n l).
Proof.
  revert l. induction n as [|n IH]; intros l H; [exact H|].
  destruct H; simpl; [constructor | now apply IH].
Qed.

Lemma removeFirst_Forall (m : jsstring -> option nat) (P : N -> Prop)
      (s : jsstring) :
  Forall P s -> Forall P (removeFirst m s).
Proof.
  induction 1 as [|c r Hc Hr IH]; simpl.
  - destruct (m []); [now apply Forall_skipn | constructor].
  - destruct (m (c :: r)); [apply Forall_skipn | ]; now constructor.
Qed.

(** X7: the column made from a sort key without a line terminator contains
    no full stop. *)
Theorem sortColumn_unqualified (k : jsstring) :
  oneLine k = true -> forallb (fun c => negb (c =? 46)%N) (sortColumn k) = true.
Proof.
  intros H. apply forallb_forall. intros c Hc. unfold sortColumn in Hc.
  assert (F : Forall noDot (removeFirst matchQualifier k)).
  { assert (T : takeWhile (fun c => negb (isLineTerminator c)) k = k)
      by (apply takeWhile_whole, Forall_forall, forallb_forall; exact H).
    destruct (lastDot k) as [n|] eqn:L.
    - rewrite (removeFirst_some _ _ (S n))
        by (unfold matchQualifier; now rewrite T, L).
      now apply lastDot_tail.
    - rewrite removeQualifier_unqualified; now apply lastDot_absent. }
  apply (removeFirst_Forall matchDirection) in F.
  apply (proj1 (Forall_forall _ _) F) in Hc. unfold noDot in Hc. now rewrite Hc.
Qed.

Lemma sortColumn_unqualified_witness :
  forallb (fun c => negb (c =? 46)%N)
          (sortColumn (lit "public.orders.created_at DESC")) = true.
Proof.
  apply (sortColumn_unqualified (lit "public.orders.created_at DESC")).
  vm_compute. reflexivity.
Defined.

Section WithNumbers.
Variable other : number -> jsstring.

Lemma suggestNode_one (n : node) (schema : jsstring) :
  (List.length (suggestNode other n schema []) <= 1)%nat
  /\ Forall (fun s => columns s <> []) (suggestNode other n schema []).
Proof.
  unfold suggestNode. cbv zeta.
  destruct (isString (NodeType n) (lit "Seq Scan")) eqn:Escan.
  - rewrite (isString_exclusive _ _ (lit "Sort") Escan) by discriminate.
    destruct (isTruthy (Filter n)); cbn [andb];
      [|split; [simpl; lia | constructor]].
    destruct (gt (orElse (PlanRows n) 0) 1000);
      [|split; [simpl; lia | constructor]].
    destruct (extractColumnsFromFilter (orElse (Filter n) [])) eqn:E;
      [split; [simpl; lia | constructor]|].
    split; [simpl; lia|]. repeat constructor. discriminate.
  - cbn [andb]. destruct (isString (NodeType n) (lit "Sort"));
      [|split; [simpl; lia | constructor]].
    destruct (SortKey n) as [keys|]; [|split; [simpl; lia | constructor]].
    destruct (map sortColumn keys) eqn:E; [split; [simpl; lia | constructor]|].
    destruct (gt (orElse (PlanRows n) 0) 5000);
      [|split; [simpl; lia | constructor]].
    split; [simpl; lia|]. repeat constructor. discriminate.
Qed.

Lemma nodeWarnings_one (n : node) :
  (List.length (nodeWarnings other n) <= 1)%nat.
Proof.
  unfold nodeWarnings.
  repeat match goal with
         | |- context [if ?b then _ else _] => destruct b
         end; simpl; lia.
Qed.

Lemma flat_map_at_most_one {A B : Type} (f : A -> list B) (l : list A) :
  (forall a, (List.length (f a) <= 1)%nat) ->
  (List.length (flat_map f l) <= List.length l)%nat.
Proof.
  intros H. induction l as [|a l IH]; simpl; [lia|].
  rewrite length_app. specialize (H a). lia.
Qed.

(** X8: a plan gives at most one suggestion and at most one warning per node
    that is visited, and every suggestion has at least one column. *)
Theorem at_most_one_per_node (n : node) (schema : jsstring) :
  (List.length (analyzePlanNode other n schema []) <= List.length (descendants n))%nat
  /\ Forall (fun s => columns s <> []) (analyzePlanNode other n schema [])
  /\ (List.length (extractWarnings other n []) <= List.length (preorder n))%nat.
Proof.
  rewrite analyzePlanNode_walk, WarningFacts.extractWarnings_walk. simpl.
  split; [|split].
  - apply flat_map_at_most_one. intros d. apply suggestNode_one.
  - apply Forall_flat_map, Forall_forall. intros d _. apply suggestNode_one.
  - apply flat_map_at_most_one. apply nodeWarnings_one.
Qed.
End WithNumbers.

End WalkFacts.

(** ** Further properties of the connection manager *)

Module ManagerFacts.
Import Database DatabaseFacts.

Section Methods.
Variable QueryResult : Type.
Variable connectOutcome : list event -> completion unit.
Variable endOutcome : list event -> completion unit.
Variable queryOutcome : list event -> jsstring -> completion QueryResult.

Let connect := connect connectOutcome endOutcome.
Let disconnect := disconnect endOutcome.
Let queryReadOnly := queryReadOnly connectOutcome queryOutcome.
Let query := @query QueryResult queryOutcome.

(** X9: when [connect] returns, the stored configuration is the new one and
    the pool is built from it with at most five clients; a pool that was
    there before has been ended first, and the new pool has been tried with
    one client, released at once. *)
Theorem connect_replaces_pool (cfg : ConnectionConfig) (s : state) :
  fst (connect cfg s) = Return tt ->
  let s' := snd (connect cfg s) in
  getConnectionInfo s' = Some cfg
  /\ (exists p,
        pool (this s') = Some p
        /\ pc_host (poolConfigOf p) = host cfg
        /\ pc_port (poolConfigOf p) = port cfg
        /\ pc_database (poolConfigOf p) = database cfg
        /\ pc_user (poolConfigOf p) = user cfg
        /\ pc_password (poolConfigOf p) = password cfg
        /\ max (poolConfigOf p) = 5)
  /\ log s'
     = log s ++ (if isConnected s then [PoolEnd true] else [])
       ++ [PoolConnect true; ClientRelease].
Proof.
  destruct s as [[p c] l]. subst connect. unfold isConnected.
  unfold_methods. simpl.
  destruct p as [p|]; simpl.
  - destruct (endOutcome l) as [[]|e]; simpl; [|discriminate].
    destruct (connectOutcome (l ++ [PoolEnd true])) as [[]|e]; simpl;
      [|discriminate].
    intros _. split; [reflexivity|]. split.
    + eexists. split; [reflexivity|]. repeat split.
    + now rewrite <- !app_assoc.
  - destruct (connectOutcome l) as [[]|e]; simpl; [|discriminate].
    intros _. split; [reflexivity|]. split.
    + eexists. split; [reflexivity|]. repeat split.
    + now rewrite <- !app_assoc.
Qed.

(** X10: when [connect] throws, either ending the previous pool failed, and
    then the manager keeps the previous pool and configuration and no new
    pool is tried; or the trial of the new pool failed, and then the manager
    keeps the new pool and the new configuration: it counts as connected. *)
Theorem connect_failure_modes (cfg : ConnectionConfig) (s : state) (e : jsstring) :
  fst (connect cfg s) = Throw e ->
  let s' := snd (connect cfg s) in
  (isConnected s = true
   /\ endOutcome (log s) = Throw e
   /\ this s' = this s
   /\ log s' = log s ++ [PoolEnd false])
  \/ (isConnected s' = true
      /\ getConnectionInfo s' = Some cfg
      /\ exists before,
          log s' = before ++ [PoolConnect false]
          /\ connectOutcome before = Throw e
          /\ before = log s ++ (if isConnected s then [PoolEnd true] else [])).
Proof.
  destruct s as [[p c] l]. subst connect. unfold isConnected.
  unfold_methods. simpl.
  destruct p as [p|]; simpl.
  - destruct (endOutcome l) as [[]|e0] eqn:E; simpl.
    + destruct (connectOutcome (l ++ [PoolEnd true])) as [[]|e1] eqn:C; simpl;
        [discriminate|].
      intros [= <-]. right. split; [reflexivity|]. split; [reflexivity|].
      exists (l ++ [PoolEnd true]). auto.
    + intros [= <-]. left. auto.
  - destruct (connectOutcome l) as [[]|e1] eqn:C; simpl; [discriminate|].
    intros [= <-]. right. split; [reflexivity|]. split; [reflexivity|].
    exists l. rewrite app_nil_r. auto.
Qed.

(** X11: on a manager whose pool and configuration are both set or both
    null, after a [disconnect] that returns the manager has neither, and
    [queryReadOnly] and [query] throw the not-connected error without a call
    to the pool; a [disconnect] that throws leaves pool and configuration as
    they were. *)
Theorem disconnect_then_not_connected (s : state) :
  consistent s ->
  let s' := snd (disconnect s) in
  (fst (disconnect s) = Return tt ->
   isConnected s' = false
   /\ getConnectionInfo s' = None
   /\ (forall sql, queryReadOnly sql s' = (Throw notConnectedMessage, s'))
   /\ (forall sql, query sql s' = (Throw notConnectedMessage, s')))
  /\ (forall e, fst (disconnect s) = Throw e ->
                this s' = this s /\ isConnected s' = true
                /\ log s' = log s ++ [PoolEnd false]).
Proof.
  destruct s as [[p c] l]. intros Hc.
  subst disconnect queryReadOnly query.
  unfold isConnected, getConnectionInfo. unfold_methods. simpl.
  destruct p as [p|]; simpl.
  - destruct (endOutcome l) as [[]|e0]; simpl.
    + split; [|discriminate]. intros _.
      split; [reflexivity|]. split; [reflexivity|]. split; intros sql; reflexivity.
    + split; [discriminate|]. intros e _.
      split; [reflexivity|]. split; reflexivity.
  - destruct Hc as [[_ Hc] | [Hc _]]; simpl in Hc; [subst c | now elim Hc].
    split; [|discriminate]. intros _.
    split; [reflexivity|]. split; [reflexivity|]. split; intros sql; reflexivity.
Qed.

(** X12: on the client it obtained, [queryReadOnly] sends one of four
    sequences of statements and nothing else: BEGIN, the statement, COMMIT;
    or BEGIN and ROLLBACK after a failed BEGIN; or BEGIN, the statement and
    ROLLBACK after a failed statement; or all three and ROLLBACK after a
    failed COMMIT.  The statement is sent only after BEGIN succeeded, COMMIT
    only after the statement succeeded. *)
Theorem queryReadOnly_statement_sequences (sql : jsstring) (s : state) :
  pool (this s) <> None ->
  connectOutcome (log s) = Return tt ->
  exists evs,
    log (snd (queryReadOnly sql s))
    = log s ++ PoolConnect true :: evs ++ [ClientRelease]
    /\ (evs = [ClientQuery beginText true; ClientQuery sql true;
               ClientQuery commitText true]
        \/ (exists ok, evs = [ClientQuery beginText false;
                              ClientQuery rollbackText ok])
        \/ (exists ok, evs = [ClientQuery beginText true; ClientQuery sql false;
                              ClientQuery rollbackText ok])
        \/ (exists ok, evs = [ClientQuery beginText true; ClientQuery sql true;
                              ClientQuery commitText false;
                              ClientQuery rollbackText ok])).
Proof.
  destruct s as [[p cfg] l]. subst queryReadOnly. unfold_methods. simpl.
  destruct p as [p|]; [|intros H; now elim H]. intros _ C. simpl. rewrite C. simpl.
  destruct (queryOutcome (l ++ [PoolConnect true]) beginText)
    as [rb|eb]; simpl; repeat (rewrite <- app_assoc; simpl app).
  - destruct (queryOutcome (l ++ [PoolConnect true; ClientQuery beginText true]) sql)
      as [r|eq]; simpl; repeat (rewrite <- app_assoc; simpl app).
    + destruct (queryOutcome
                  (l ++ [PoolConnect true; ClientQuery beginText true;
                         ClientQuery sql true]) commitText)
        as [rc|ec]; simpl; repeat (rewrite <- app_assoc; simpl app).
      * eexists [_; _; _]. split; [reflexivity|]. now left.
      * destruct (queryOutcome _ rollbackText); simpl;
          repeat (rewrite <- app_assoc; simpl app);
          (eexists [_; _; _; _]; split; [reflexivity|]);
          right; right; right; eexists; reflexivity.
    + destruct (queryOutcome _ rollbackText); simpl;
        repeat (rewrite <- app_assoc; simpl app);
        (eexists [_; _; _]; split; [reflexivity|]);
        right; right; left; eexists; reflexivity.
  - destruct (queryOutcome _ rollbackText); simpl;
      repeat (rewrite <- app_assoc; simpl app);
      (eexists [_; _]; split; [reflexivity|]);
      right; left; eexists; reflexivity.
Qed.
End Methods.

Lemma connect_replaces_pool_witness :
  let always := fun _ : list event => Return tt in
  let cfg := {| host := lit "db"; port := 5432; database := lit "app";
                user := lit "reader"; password := lit "secret"; ssl := Some true |} in
  let s := snd (Database.connect always always cfg initial) in
  getConnectionInfo (snd (Database.connect always always cfg s)) = Some cfg
  /\ log (snd (Database.connect always always cfg s))
     = [PoolConnect true; ClientRelease; PoolEnd true; PoolConnect true;
        ClientRelease].
Proof.
  intros always cfg s.
  destruct (connect_replaces_pool always always cfg s) as (H1 & _ & H3);
    [vm_compute; reflexivity|].
  split; [exact H1 | exact H3].
Defined.

Lemma connect_failure_modes_witness :
  let refused := fun _ : list event => Throw (lit "connect ECONNREFUSED") in
  let cfg := {| host := lit "db"; port := 5432; database := lit "app";
                user := lit "reader"; password := lit "secret"; ssl := None |} in
  let s' := snd (Database.connect refused refused cfg initial) in
  isConnected s' = true /\ getConnectionInfo s' = Some cfg.
Proof.
  intros refused cfg s'.
  destruct (connect_failure_modes refused refused cfg initial
              (lit "connect ECONNREFUSED")) as [(H & _) | (H1 & H2 & _)];
    [vm_compute; reflexivity | discriminate H | split; assumption].
Defined.

Lemma disconnect_then_not_connected_witness :
  let always := fun _ : list event => Return tt in
  let answer := fun (_ : list event) (_ : jsstring) => Return tt in
  let cfg := {| host := lit "db"; port := 5432; database := lit "app";
                user := lit "reader"; password := lit "secret"; ssl := None |} in
  let s := snd (Database.connect always always cfg initial) in
  let s' := snd (Database.disconnect always s) in
  Database.queryReadOnly always answer (lit "SELECT 1") s'
  = (Throw notConnectedMessage, s').
Proof.
  intros always answer cfg s s'.
  destruct (disconnect_then_not_connected unit always always answer s)
    as [H _]; [right; split; discriminate|].
  destruct H as (_ & _ & H & _); [vm_compute; reflexivity|].
  exact (H (lit "SELECT 1")).
Defined.

Lemma queryReadOnly_statement_sequences_witness :
  let always := fun _ : list event => Return tt in
  let answer := fun (_ : list event) (_ : jsstring) => Return tt in
  let cfg := {| host := lit "db"; port := 5432; database := lit "app";
                user := lit "reader"; password := lit "secret"; ssl := None |} in
  let s := snd (Database.connect always always cfg initial) in
  exists evs,
    log (snd (Database.queryReadOnly always answer (lit "SELECT 1") s))
    = log s ++ PoolConnect true :: evs ++ [ClientRelease].
Proof.
  intros always answer cfg s.
  destruct (queryReadOnly_statement_sequences unit always answer (lit "SELECT 1") s)
    as (evs & H & _); [discriminate | reflexivity |].
  exists evs. exact H.
Defined.

End ManagerFacts.

(** ** Properties of the tools *)

Module ToolFacts.
Import Database DatabaseFacts PlanTree Query QueryTools Notions.

Ltac unfold_tools :=
  unfold QueryTools.executeQuery, QueryTools.explainQuery, QueryTools.getQueryCost,
    OptimizationTools.suggestIndexes, OptimizationTools.getSlowQueries,
    Server.connectTool, Server.disconnectTool, Server.connectionStatusTool,
    QueryTools.sync, QueryTools.performanceNow.

Section Tools.
Variable other : number -> jsstring.
Variable connectOutcome : list event -> completion unit.
Variable now : list event -> number.
Variable minus : number -> number -> number.

(** X13: the three methods of [QueryTools] validate the statement before
    anything else: a statement that [validateReadOnly] rejects makes them
    throw its error without a call to the pool, connected or not. *)
Theorem queryTools_validate_first (sql message : jsstring) (s : state) :
  validateReadOnly sql = Throw message ->
  (forall Row (queryOutcome : list event -> jsstring -> completion (QueryResult Row))
          limit,
      executeQuery other connectOutcome now minus queryOutcome sql limit s
      = (Throw message, s))
  /\ (forall queryOutcome stringifyPlan analyze,
        explainQuery other connectOutcome now minus queryOutcome stringifyPlan
                     sql analyze s
        = (Throw message, s))
  /\ (forall queryOutcome stringifyTopPlan,
        getQueryCost connectOutcome queryOutcome stringifyTopPlan sql s
        = (Throw message, s)).
Proof.
  intros H. split; [|split]; intros; unfold_tools; unfold bind; now rewrite H.
Qed.

(** X14: for a statement that passes the validation, [executeQuery] hands
    [ensureLimit(sql, limit)] to [queryReadOnly] and does nothing else to the
    manager; it throws what [queryReadOnly] throws, and otherwise returns the
    names of the fields, the rows, the row count with 0 for null, and the
    rounded difference, as doubles, of the two readings of the clock. *)
Theorem executeQuery_runs_limited_statement
        (Row : Type)
        (queryOutcome : list event -> jsstring -> completion (QueryResult Row))
        (sql : jsstring) (limit : number) (s : state) :
  validateReadOnly sql = Return tt ->
  let run := queryReadOnly connectOutcome queryOutcome
                           (ensureLimit other sql limit) s in
  let result :=
    executeQuery other connectOutcome now minus queryOutcome sql limit s in
  snd result = snd run
  /\ (forall e, fst run = Throw e -> fst result = Throw e)
  /\ (forall r, fst run = Return r ->
        fst result
        = Return {| columns := fields r;
                    resultRows := rows r;
                    resultRowCount := orElse (rowCount r) 0;
                    executionTimeMs :=
                      mathRound (minus (now (log (snd run))) (now (log s))) |}).
Proof.
  intros H run result. subst run result. unfold_tools. unfold bind, ret.
  rewrite H.
  destruct (queryReadOnly connectOutcome queryOutcome (ensureLimit other sql limit) s)
    as [[r|e] s']; simpl.
  - split; [reflexivity|]. split; [discriminate|]. now intros r' [= <-].
  - split; [reflexivity|]. split; [now intros e' [= <-] | discriminate].
Qed.

(** X15: [getSlowQueries] does to the manager what [queryReadOnly] does with
    its statement, returns the rows when that returns, and replaces whatever
    that throws, the not-connected error included, by the message about the
    missing extension. *)
Theorem getSlowQueries_replaces_every_error
        (SlowQuery : Type)
        (queryOutcome : list event -> jsstring -> completion (QueryResult SlowQuery))
        (limit : number) (s : state) :
  let run := queryReadOnly connectOutcome queryOutcome
                           OptimizationTools.slowQueriesText s in
  let result := OptimizationTools.getSlowQueries connectOutcome queryOutcome limit s in
  snd result = snd run
  /\ (forall r, fst run = Return r -> fst result = Return (rows r))
  /\ (forall e, fst run = Throw e ->
                fst result = Throw OptimizationTools.extensionMessage)
  /\ (pool (this s) = None ->
      result = (Throw OptimizationTools.extensionMessage, s)).
Proof.
  intros run result. subst run result. unfold_tools. unfold tryCatch, bind, ret, throw.
  split; [|split; [|split]].
  - destruct (queryReadOnly _ _ _ s) as [[r|e] s']; reflexivity.
  - destruct (queryReadOnly _ _ _ s) as [[r|e] s']; simpl;
      [now intros r' [= <-] | discriminate].
  - destruct (queryReadOnly _ _ _ s) as [[r|e] s']; simpl;
      [discriminate | reflexivity].
  - intros H. destruct s as [[p c] l]. simpl in H. subst p. reflexivity.
Qed.
(** X16: [suggestIndexes] does not validate: whatever the statement, once a
    client is obtained and BEGIN has succeeded, the statement is sent to the
    client behind the EXPLAIN prefix. *)
Theorem suggestIndexes_sends_any_statement
        (queryOutcome :
           list event -> jsstring -> completion (QueryResult planJson))
        (sql schema : jsstring) (s : state) (r0 : QueryResult planJson) :
  pool (this s) <> None ->
  connectOutcome (log s) = Return tt ->
  queryOutcome (log s ++ [PoolConnect true]) beginText = Return r0 ->
  exists ok rest,
    log (snd (OptimizationTools.suggestIndexes other connectOutcome queryOutcome
                sql schema s))
    = log s ++ [PoolConnect true; ClientQuery beginText true;
                ClientQuery (lit "EXPLAIN (FORMAT JSON) " ++ sql) ok] ++ rest.
Proof.
  remember (lit "EXPLAIN (FORMAT JSON) " ++ sql) as text eqn:Htext.
  destruct s as [[p cfg] l]. simpl. intros Hp C B.
  destruct p as [p|]; [|now elim Hp].
  unfold_tools. rewrite <- Htext. clear Htext.
  unfold_methods. simpl. rewrite C. simpl. rewrite B. simpl.
  repeat (rewrite <- app_assoc; simpl app).
  destruct (queryOutcome (l ++ [PoolConnect true; ClientQuery beginText true]) text)
    as [r|e]; simpl; repeat (rewrite <- app_assoc; simpl app).
  - destruct (queryOutcome _ commitText) as [rc|ec]; simpl;
      repeat (rewrite <- app_assoc; simpl app).
    + destruct (planOf r); simpl; eexists true, [_; _]; reflexivity.
    + destruct (queryOutcome _ rollbackText); simpl;
        repeat (rewrite <- app_assoc; simpl app);
        eexists true, [_; _; _]; reflexivity.
  - destruct (queryOutcome _ rollbackText); simpl;
      repeat (rewrite <- app_assoc; simpl app);
      eexists false, [_; _]; reflexivity.
Qed.

(** X17: when every command succeeds and the EXPLAIN result holds no plan
    object, the three tools differ.  Where the plan is undefined (no row, no
    such column, an empty array), [suggestIndexes] throws the TypeError of
    reading a property of undefined, after the transaction was committed
    and the client released, and [explainQuery] returns without a plan text;
    where the plan is null (a null column, a null first element), the
    TypeError is the one of reading a property of null and the plan text is
    null.  In both cases [explainQuery] gives a planning time of 0 and no
    warning, and [getQueryCost] a cost of 0, 0 rows, the node type Unknown
    and no details. *)
Theorem tools_without_plan
        (r : QueryResult planJson) (sql schema : jsstring) (s : state)
        (analyze : bool)
        (stringifyPlan : explainObject -> jsstring)
        (stringifyTopPlan : explainObject -> option jsstring) :
  objectOf (planOf r) = None ->
  pool (this s) <> None ->
  connectOutcome (log s) = Return tt ->
  let queryOutcome := fun (_ : list event) (_ : jsstring) => Return r in
  let sent := fun text =>
                log s ++ [PoolConnect true; ClientQuery beginText true;
                          ClientQuery text true; ClientQuery commitText true;
                          ClientRelease] in
  let isNull := match planOf r with PlanNull => true | _ => false end in
  OptimizationTools.suggestIndexes other connectOutcome queryOutcome sql schema s
  = (Throw (if isNull
            then lit "Cannot read properties of null (reading 'Plan')"
            else lit "Cannot read properties of undefined (reading 'Plan')"),
     {| this := this s; log := sent (lit "EXPLAIN (FORMAT JSON) " ++ sql) |})
  /\ fst (explainQuery other connectOutcome now minus queryOutcome stringifyPlan
                       sql analyze s)
     = match validateReadOnly sql with
       | Throw message => Throw message
       | Return _ =>
           Return {| plan := if isNull then Some (lit "null") else None;
                     planningTimeMs := 0;
                     planExecutionTimeMs :=
                       mathRound
                         (minus
                            (now (sent ((if analyze then explainAnalyzePrefix
                                         else explainPrefix) ++ lit " " ++ sql)))
                            (now (log s)));
                     warnings := [] |}
       end
  /\ fst (getQueryCost connectOutcome queryOutcome stringifyTopPlan sql s)
     = match validateReadOnly sql with
       | Throw message => Throw message
       | Return _ =>
           Return {| estimatedCost := 0;
                     estimatedRows := 0;
                     planNodeType := lit "Unknown";
                     details := None |}
       end.
Proof.
  destruct s as [[p cfg] l]. simpl. intros Hr Hp C.
  destruct p as [p|]; [|now elim Hp].
  split; [|split].
  - unfold_tools. unfold_methods. simpl. rewrite C. simpl.
    repeat (rewrite <- app_assoc; simpl app).
    destruct (planOf r); [reflexivity | reflexivity | discriminate].
  - unfold_tools. unfold_methods. simpl.
    destruct (validateReadOnly sql) as [[]|message]; [|reflexivity].
    simpl. rewrite C. simpl. repeat (rewrite <- app_assoc; simpl app).
    destruct (planOf r); [reflexivity | reflexivity | discriminate].
  - unfold_tools. unfold_methods. simpl.
    destruct (validateReadOnly sql) as [[]|message]; [|reflexivity].
    simpl. rewrite C. simpl. now rewrite Hr.
Qed.

(** The plan that [planOf] finds is undefined without a row, without the
    column and for an empty array, and null for a null column and for an
    array that begins with null. *)
Lemma planOf_cases (fields : list jsstring) (rowCount : option number)
      (rest : list planJson) (others : list (option explainObject))
      (object : explainObject) :
  let result := fun rows => {| rows := rows; fields := fields; rowCount := rowCount |} in
  planOf (result []) = PlanUndefined
  /\ planOf (result (PlanAbsent :: rest)) = PlanUndefined
  /\ planOf (result (PlanArray [] :: rest)) = PlanUndefined
  /\ planOf (result (PlanNullColumn :: rest)) = PlanNull
  /\ planOf (result (PlanArray (None :: others) :: rest)) = PlanNull
  /\ planOf (result (PlanArray (Some object :: others) :: rest)) = PlanIs object
  /\ planOf (result (PlanObject object :: rest)) = PlanIs object.
Proof. repeat split. Qed.

(** X18: when the manager has no pool and the trial of the new pool fails,
    the tool [connect] answers with the text Error: and the message, and the
    tool [connection_status] then answers Connected to, with the host, port,
    database and user of the failed attempt. *)
Theorem failed_connect_reported_as_connected
        (endOutcome : list event -> completion unit)
        (params : ConnectionConfig) (s : state) (e : jsstring) :
  isConnected s = false ->
  connectOutcome (log s) = Throw e ->
  let r := Server.connectTool other connectOutcome endOutcome params s in
  fst r = Return (Server.errorResult e)
  /\ firstText (Server.errorResult e) = lit "Error: " ++ e
  /\ fst (Server.connectionStatusTool other (snd r))
     = Return (Server.textContent
                 (lit "Connected to " ++ host params ++ lit ":"
                  ++ numberToString other (port params) ++ lit "/"
                  ++ database params ++ lit " as " ++ user params)).
Proof.
  destruct s as [[p cfg] l]. unfold isConnected. simpl. intros Hp C.
  destruct p; [discriminate|].
  unfold_tools. unfold_methods. simpl. rewrite C. simpl.
  split; [reflexivity|]. split; reflexivity.
Qed.
End Tools.

Lemma queryTools_validate_first_witness :
  QueryTools.getQueryCost (fun _ => Return tt)
    (fun (_ : list event) (_ : jsstring) =>
       Return {| rows := []; fields := []; rowCount := None |})
    (fun _ : explainObject => None) (lit "DELETE FROM orders") initial
  = (Throw (forbiddenMessage (hd {| alternatives := [] |} forbidden)), initial).
Proof.
  destruct (queryTools_validate_first (fun _ => []) (fun _ => Return tt)
              (fun _ => 0) Qminus (lit "DELETE FROM orders")
              (forbiddenMessage (hd {| alternatives := [] |} forbidden)) initial)
    as (_ & _ & H); [vm_compute; reflexivity|].
  apply H.
Defined.

Lemma executeQuery_runs_limited_statement_witness :
  let always := fun _ : list event => Return tt in
  let answer := fun (_ : list event) (_ : jsstring) =>
                  Return {| rows := [5%N]; fields := [lit "n"]; rowCount := None |} in
  let cfg := {| host := lit "db"; port := 5432; database := lit "app";
                user := lit "reader"; password := lit "secret"; ssl := None |} in
  let s := snd (Database.connect always always cfg initial) in
  log (snd (executeQuery (fun _ => []) always (fun _ => 0) Qminus answer
                         (lit "SELECT n FROM t;") 10 s))
  = log (snd (queryReadOnly always answer (lit "SELECT n FROM t LIMIT 10") s)).
Proof.
  intros always answer cfg s.
  destruct (executeQuery_runs_limited_statement (fun _ => []) always (fun _ => 0)
              Qminus N answer (lit "SELECT n FROM t;") 10 s) as (H & _);
    [vm_compute; reflexivity|].
  rewrite H. vm_compute. reflexivity.
Defined.

Lemma suggestIndexes_sends_any_statement_witness :
  let always := fun _ : list event => Return tt in
  let answer := fun (_ : list event) (_ : jsstring) =>
                  Return {| rows := []; fields := []; rowCount := None |} in
  let cfg := {| host := lit "db"; port := 5432; database := lit "app";
                user := lit "reader"; password := lit "secret"; ssl := None |} in
  let s := snd (Database.connect always always cfg initial) in
  validateReadOnly (lit "DROP TABLE orders") <> Return tt
  /\ exists ok rest,
      log (snd (OptimizationTools.suggestIndexes (fun _ => []) always answer
                  (lit "DROP TABLE orders") (lit "public") s))
      = log s ++ [PoolConnect true; ClientQuery beginText true;
                  ClientQuery (lit "EXPLAIN (FORMAT JSON) "
                               ++ lit "DROP TABLE orders") ok] ++ rest.
Proof.
  intros always answer cfg s. split; [vm_compute; discriminate|].
  apply (suggestIndexes_sends_any_statement (fun _ => []) always answer
           (lit "DROP TABLE orders") (lit "public") s
           {| rows := []; fields := []; rowCount := None |});
    [discriminate | reflexivity | reflexivity].
Defined.

Lemma tools_without_plan_witness :
  let always := fun _ : list event => Return tt in
  let r := {| rows := [PlanArray [None]]; fields := []; rowCount := None |} in
  let cfg := {| host := lit "db"; port := 5432; database := lit "app";
                user := lit "reader"; password := lit "secret"; ssl := None |} in
  let s := snd (Database.connect always always cfg initial) in
  fst (OptimizationTools.suggestIndexes (fun _ => []) always (fun _ _ => Return r)
         (lit "SELECT 1") (lit "public") s)
  = Throw OptimizationTools.nullPlanMessage.
Proof.
  intros always r cfg s.
  destruct (tools_without_plan (fun _ => []) always (fun _ => 0) Qminus r
              (lit "SELECT 1") (lit "public") s false (fun _ => [])
              (fun _ => None))
    as (H & _); [reflexivity | discriminate | reflexivity |].
  now rewrite H.
Defined.

Lemma failed_connect_reported_as_connected_witness :
  let refused := fun _ : list event => Throw (lit "connect ECONNREFUSED") in
  let cfg := {| host := lit "db"; port := 5432; database := lit "app";
                user := lit "reader"; password := lit "secret"; ssl := Some false |} in
  fst (Server.connectionStatusTool (fun _ => [])
         (snd (Server.connectTool (fun _ => []) refused refused cfg initial)))
  = Return (Server.textContent (lit "Connected to db:5432/app as reader")).
Proof.
  intros refused cfg.
  destruct (failed_connect_reported_as_connected (fun _ => []) refused refused
              cfg initial (lit "connect ECONNREFUSED")) as (_ & _ & H);
    [reflexivity | reflexivity |].
  rewrite H. vm_compute. reflexivity.
Defined.

End ToolFacts.
